(** * Resume-Sudharak: the feedback retriever and the match score

    A shallow embedding of [src/feedback_generator.py]:
    - [analyze_resume_with_llm], the validated, retrying call of a chat
      client, in a state-and-exception monad over an explicit world (the
      client's state, the calls it received, the warnings logged and the
      sleeps performed);
    - [match_score], the bag-of-words cosine score, over token counts and
      IEEE binary64 numbers. *)

From Stdlib Require Import List String Ascii Bool NArith ZArith Lia.
From Stdlib Require Import DecimalString Sorted.
From Stdlib Require Import Floats.SpecFloat.
Import ListNotations.

Set Implicit Arguments.
Set Warnings "-abstract-large-number".

(** ** Python strings *)

(** A Python [str] is a sequence of Unicode code points. *)
Definition char := N.
Definition str := list char.

(** A literal of the source, which is ASCII throughout. *)
Definition lit (s : string) : str := map N_of_ascii (list_ascii_of_string s).

Definition nl : str := [10%N].

(** [str.isspace] on one code point: the characters [str.strip()] removes. *)
Definition isspace (c : char) : bool :=
  ((9 <=? c) && (c <=? 13) || (28 <=? c) && (c <=? 32)
   || (c =? 133) || (c =? 160) || (c =? 5760)
   || (8192 <=? c) && (c <=? 8202)
   || (c =? 8232) || (c =? 8233) || (c =? 8239) || (c =? 8287)
   || (c =? 12288))%N.

Fixpoint lstrip (s : str) : str :=
  match s with
  | [] => []
  | c :: t => if isspace c then lstrip t else s
  end.

Definition rstrip (s : str) : str := rev (lstrip (rev s)).

(** [s.strip()] *)
Definition strip (s : str) : str := rstrip (lstrip s).

(** Truth value of a string: the empty string is the only false one. *)
Definition truthy (s : str) : bool :=
  match s with
  | [] => false
  | _ :: _ => true
  end.

(** [s[:n]] for a non-negative [n]. *)
Definition slice_to (n : nat) (s : str) : str := firstn n s.

(** [str(n)] for a non-negative integer. *)
Definition str_of_nat (n : nat) : str := lit (NilEmpty.string_of_uint (Nat.to_uint n)).

(** ** Exceptions *)

Inductive exc_class :=
| Exception                          (* builtins.Exception itself *)
| ValueError                         (* a subclass of Exception *)
| ExceptionSubclass (name : str)     (* any other subclass of Exception *)
| BaseExceptionOnly (name : str).    (* KeyboardInterrupt, SystemExit, ... *)

(** An exception object: its class, what [str(e)] gives, and [__context__],
    the exception that was being handled when it was raised. *)
#[warnings="-register-all"]
Inductive exc :=
| Raised (cls : exc_class) (msg : str) (context : option exc).

Definition exc_cls (e : exc) : exc_class := let 'Raised c _ _ := e in c.
Definition exc_str (e : exc) : str := let 'Raised _ m _ := e in m.
Definition exc_context (e : exc) : option exc := let 'Raised _ _ c := e in c.

(** [isinstance(e, Exception)]: what [except Exception] catches. *)
Definition is_Exception (e : exc) : bool :=
  match exc_cls e with
  | BaseExceptionOnly _ => false
  | _ => true
  end.

(** ** Constants of the module *)

Definition DEFAULT_MODEL : str := lit "command-a-03-2025".
Definition MAX_RETRIES : nat := 3.
Definition RETRY_DELAY : Z := 10.  (* seconds *)

(** [range(n)] *)
Definition range (n : nat) : list nat := seq 0 n.

(** ** The prompt *)

Definition prompt_intro : str :=
  nl ++ lit "    As an expert resume reviewer, analyze this resume for the target job role." ++ nl
  ++ nl
  ++ lit "    JOB ROLE: ".

Definition prompt_description : str :=
  nl ++ lit "    JOB DESCRIPTION: ".

Definition prompt_content : str :=
  nl
  ++ nl
  ++ lit "    RESUME CONTENT:" ++ nl
  ++ lit "    ".

Definition prompt_sections : str :=
  nl
  ++ nl
  ++ lit "    Provide structured feedback in these sections:" ++ nl
  ++ nl
  ++ lit "    1. Missing Skills" ++ nl
  ++ lit "    2. Formatting Improvements  " ++ nl
  ++ lit "    3. Content Suggestions" ++ nl
  ++ lit "    4. Experience Tailoring" ++ nl
  ++ lit "    5. Overall Recommendations" ++ nl
  ++ nl
  ++ lit "    Be specific and actionable. Use bullet points." ++ nl
  ++ lit "    ".

(** Everything of the prompt that comes before the resume. *)
Definition prompt_before (job_role job_description : str) : str :=
  prompt_intro ++ job_role
  ++ prompt_description
  ++ (if truthy job_description then job_description else lit "Not provided")
  ++ prompt_content.

(** The f-string of lines 38-56. *)
Definition build_prompt (resume_text job_role job_description : str) : str :=
  prompt_before job_role job_description
  ++ slice_to 8000 resume_text
  ++ prompt_sections.

(** ** The world the function runs in *)

(** What [cohere_client.chat] returns: an object with a [text] attribute. *)
Record response := { text : str }.

Section Retriever.

(** The client is any object with a [chat] method: it has a state of its
    own (a connection, a quota, a scripted list of answers) and each call
    either raises or returns a response. *)
Variable St : Type.
Variable chat : St -> str -> str -> St * (exc + response).

Record world := {
  client_state : St;
  calls : list (str * str);     (* (message, model) of each chat call *)
  warnings : list str;          (* logger.warning records *)
  sleeps : list Z               (* time.sleep arguments, in seconds *)
}.

(** Computations: they change the world and raise or return. *)
Definition M (A : Type) : Type := world -> world * (exc + A).

Definition ret {A} (a : A) : M A := fun w => (w, inr a).

Definition bind {A B} (c : M A) (k : A -> M B) : M B :=
  fun w =>
    match c w with
    | (w', inl e) => (w', inl e)
    | (w', inr a) => k a w'
    end.

(** [raise e] outside of any handler: no exception is being handled, so
    the new one has no [__context__]. *)
Definition raise_ {A} (cls : exc_class) (msg : str) : M A :=
  fun w => (w, inl (Raised cls msg None)).

(** [try: body / except Exception as e: handler e] *)
Definition try_except_Exception {A} (body : M A) (handler : exc -> M A) : M A :=
  fun w =>
    match body w with
    | (w', inl e) => if is_Exception e then handler e w' else (w', inl e)
    | (w', inr a) => (w', inr a)
    end.

Definition client_chat (message model : str) : M response :=
  fun w =>
    let '(s', r) := chat (client_state w) message model in
    ({| client_state := s';
        calls := calls w ++ [(message, model)];
        warnings := warnings w;
        sleeps := sleeps w |}, r).

Definition logger_warning (msg : str) : M unit :=
  fun w =>
    ({| client_state := client_state w;
        calls := calls w;
        warnings := warnings w ++ [msg];
        sleeps := sleeps w |}, inr tt).

Definition time_sleep (seconds : Z) : M unit :=
  fun w =>
    ({| client_state := client_state w;
        calls := calls w;
        warnings := warnings w;
        sleeps := sleeps w ++ [seconds] |}, inr tt).

Notation "x <- c ;; k" := (bind c (fun x => k))
  (at level 61, c at next level, right associativity).
Notation "c ;;; k" := (bind c (fun _ => k))
  (at level 61, right associativity).

Definition warning_text (attempt : nat) (e : exc) : str :=
  lit "Cohere API call failed (attempt " ++ str_of_nat (attempt + 1)
  ++ lit "): " ++ exc_str e.

(** The [for attempt in range(MAX_RETRIES)] loop of lines 59-68 over the
    attempts still to run. [Some t] is the [return t] inside the loop,
    [None] is the loop running to its end. *)
Fixpoint retry_loop (attempts : list nat) (prompt : str) : M (option str) :=
  match attempts with
  | [] => ret None
  | attempt :: rest =>
      r <- try_except_Exception
             (response <- client_chat prompt DEFAULT_MODEL ;;
              ret (Some (text response)))
             (fun e =>
                logger_warning (warning_text attempt e) ;;;
                time_sleep RETRY_DELAY ;;;
                ret None) ;;
      match r with
      | Some t => ret (Some t)
      | None => retry_loop rest prompt
      end
  end.

Definition analyze_resume_with_llm
    (resume_text job_role job_description : str) : M str :=
  if negb (truthy (strip resume_text)) then
    raise_ ValueError (lit "Resume text cannot be empty")
  else if negb (truthy (strip job_role)) then
    raise_ ValueError (lit "Job role cannot be empty")
  else
    let prompt := build_prompt resume_text job_role job_description in
    r <- retry_loop (range MAX_RETRIES) prompt ;;
    match r with
    | Some t => ret t
    | None => raise_ Exception (lit "Failed to analyze resume after multiple attempts.")
    end.

(** A chat call that raises something [except Exception] catches. *)
Definition chat_fails (s : St) (message model : str) (s' : St) (e : exc) : Prop :=
  chat s message model = (s', inl e) /\ is_Exception e = true.

(** Each of the next [n] calls of the client fails in this way. *)
Fixpoint fails_for (n : nat) (s : St) (message model : str) : Prop :=
  match n with
  | O => True
  | S k => exists s' e, chat_fails s message model s' e
                        /\ fails_for k s' message model
  end.

(** The world after one failed attempt: the call, the warning, the sleep. *)
Definition after_failure (w : world) (prompt : str) (attempt : nat)
    (s' : St) (e : exc) : world :=
  {| client_state := s';
     calls := calls w ++ [(prompt, DEFAULT_MODEL)];
     warnings := warnings w ++ [warning_text attempt e];
     sleeps := sleeps w ++ [RETRY_DELAY] |}.

(** The world after a call that returned. *)
Definition after_success (w : world) (prompt : str) (s' : St) : world :=
  {| client_state := s';
     calls := calls w ++ [(prompt, DEFAULT_MODEL)];
     warnings := warnings w;
     sleeps := sleeps w |}.

End Retriever.

Arguments world St : clear implicits.
Arguments M St A : clear implicits.

(** ** IEEE binary64 numbers

    NumPy's [float64], with the operations of the Standard Library's
    executable specification of IEEE 754 (round to nearest, ties to even).
    The score is evaluated with them in the order of the library's loops:
    the squares of a row and the products of two rows are added entry by
    entry in storage order, and every operation is rounded on its own. *)

Definition float64 := spec_float.

Definition f64_of_Z (z : Z) : float64 := binary_normalize 53 1024 z 0 false.
Definition f64_add : float64 -> float64 -> float64 := SFadd 53 1024.
Definition f64_mul : float64 -> float64 -> float64 := SFmul 53 1024.
Definition f64_div : float64 -> float64 -> float64 := SFdiv 53 1024.
Definition f64_sqrt : float64 -> float64 := SFsqrt 53 1024.
Definition f64_eqb : float64 -> float64 -> bool := SFeqb.

Definition f64_zero : float64 := S754_zero false.


(** [rint]: the nearest integral value, ties to even. *)
Definition f64_rint (x : float64) : float64 :=
  match x with
  | S754_finite s m e =>
      if (0 <=? e)%Z then x
      else
        let d := (2 ^ (- e))%Z in
        let q := (Zpos m / d)%Z in
        let r := (Zpos m mod d)%Z in
        let q' := match (2 * r ?= d)%Z with
                  | Lt => q
                  | Gt => (q + 1)%Z
                  | Eq => if Z.even q then q else (q + 1)%Z
                  end in
        binary_normalize 53 1024 (cond_Zopp s q') 0 s
  | _ => x
  end.

(** [round(x, ndigits)] on a NumPy float64 for [ndigits >= 0]: scale by the
    power of ten, round to an integral value, scale back. *)
Definition f64_round (x : float64) (ndigits : nat) : float64 :=
  let f := f64_of_Z (10 ^ Z.of_nat ndigits) in
  f64_div (f64_rint (f64_mul x f)) f.

(** ** The vectorizer

    [CountVectorizer()] with its defaults: lower-case the document, take as
    tokens the matches of [(?u)\b\w\w+\b] (the maximal runs of two or more
    word characters), number the distinct tokens, count them per document. *)

Fixpoint str_eqb (s t : str) : bool :=
  match s, t with
  | [], [] => true
  | c :: s', d :: t' => (c =? d)%N && str_eqb s' t'
  | _, _ => false
  end.

(** The Unicode tables of the interpreter on ASCII text; they are exact on
    code points below 128. *)
Definition lower_ascii (s : str) : str :=
  map (fun c => if (65 <=? c)%N && (c <=? 90)%N then (c + 32)%N else c) s.

Definition word_ascii (c : char) : bool :=
  ((48 <=? c) && (c <=? 57) || (65 <=? c) && (c <=? 90)
   || (97 <=? c) && (c <=? 122) || (c =? 95))%N.

(** One row of the sparse count matrix: the stored (column, value) entries,
    in storage order. *)
Definition row (A : Type) := list (nat * A).

(** The columns a row stores. *)
Definition keys {A} (r : row A) : list nat := map fst r.

(** [X.sort_indices()] on one row: the entries by increasing column. *)
Fixpoint row_insert {A} (j : nat) (v : A) (r : row A) : row A :=
  match r with
  | [] => [(j, v)]
  | (k, w) :: r' =>
      if Nat.leb j k then (j, v) :: r else (k, w) :: row_insert j v r'
  end.

Definition sort_indices {A} (r : row A) : row A :=
  fold_right (fun '(j, v) sorted => row_insert j v sorted) [] r.

Fixpoint row_get {A} (j : nat) (r : row A) : option A :=
  match r with
  | [] => None
  | (k, v) :: r' => if Nat.eqb j k then Some v else row_get j r'
  end.

(** The values a row stores, in storage order. *)
Definition vals {A} (r : row A) : list A := map snd r.

(** The same row with its columns numbered by [f]. *)
Definition renumber {A} (f : nat -> nat) (r : row A) : row A :=
  map (fun '(j, v) => (f j, v)) r.

(** The columns from [n] on moved up by [k]. *)
Definition shift_from (n k : nat) (j : nat) : nat :=
  if Nat.ltb j n then j else j + k.

(** The products of two lists of values, added from left to right. *)
Definition sum_products (vs ws : list float64) : float64 :=
  fold_left (fun acc '(v, w) => f64_add acc (f64_mul v w)) (combine vs ws)
    f64_zero.

Section Scorer.

(** [str.lower] and the [\w] class of [re] on [str] patterns. *)
Variable str_lower : str -> str.
Variable re_word : char -> bool.

(** The runs of word characters of [s], split at every other character;
    [run] is the run being read. *)
Fixpoint word_runs (s : str) (run : str) : list str :=
  match s with
  | [] => [run]
  | c :: s' =>
      if re_word c then word_runs s' (run ++ [c])
      else run :: word_runs s' []
  end.

(** [token_pattern.findall(doc)] *)
Definition findall_tokens (doc : str) : list str :=
  filter (fun r => Nat.leb 2 (List.length r)) (word_runs doc []).

(** The analyzer: preprocess, then tokenize; unigrams, no stop words. *)
Definition analyze (doc : str) : list str := findall_tokens (str_lower doc).

(** [vocabulary[feature]] on the defaultdict whose factory is its own
    length: the index of a known term, a fresh index for a new one. The
    vocabulary is kept as the list of its terms in index order. *)
Fixpoint index_of (t : str) (vocabulary : list str) : option nat :=
  match vocabulary with
  | [] => None
  | u :: rest =>
      if str_eqb t u then Some 0
      else match index_of t rest with
           | Some i => Some (S i)
           | None => None
           end
  end.

Definition vocabulary_index (vocabulary : list str) (t : str) : list str * nat :=
  match index_of t vocabulary with
  | Some i => (vocabulary, i)
  | None => (vocabulary ++ [t], List.length vocabulary)
  end.

(** A term that a vocabulary does not have yet. *)
Definition new_to (vocabulary : list str) (t : str) : bool :=
  match index_of t vocabulary with
  | None => true
  | Some _ => false
  end.

(** [feature_counter[feature_idx] += 1], or [= 1] the first time; a dict
    keeps its keys in insertion order. *)
Fixpoint counter_incr (j : nat) (counter : row N) : row N :=
  match counter with
  | [] => [(j, 1%N)]
  | (k, c) :: rest =>
      if Nat.eqb j k then (k, (c + 1)%N) :: rest
      else (k, c) :: counter_incr j rest
  end.

Fixpoint count_features (features : list str) (vocabulary : list str)
    (counter : row N) : list str * row N :=
  match features with
  | [] => (vocabulary, counter)
  | t :: rest =>
      let '(vocabulary', j) := vocabulary_index vocabulary t in
      count_features rest vocabulary' (counter_incr j counter)
  end.

(** [_count_vocab]: one counter per document over a growing vocabulary. *)
Fixpoint count_vocab (raw_documents : list str) (vocabulary : list str)
    : list str * list (row N) :=
  match raw_documents with
  | [] => (vocabulary, [])
  | doc :: rest =>
      let '(vocabulary', counter) := count_features (analyze doc) vocabulary [] in
      let '(vocabulary'', rows) := count_vocab rest vocabulary' in
      (vocabulary'', counter :: rows)
  end.

Definition empty_vocabulary : exc :=
  Raised ValueError
    (lit "empty vocabulary; perhaps the documents only contain stop words")
    None.

(** [CountVectorizer().fit_transform(raw_documents)]: count, fail on an
    empty vocabulary, sort each row by column. With the default [min_df]
    and [max_df] no column is pruned. At the end the library renumbers the
    columns in the alphabetical order of their terms, one to one and
    without moving the stored entries; the rows below keep the numbers of
    [_count_vocab], which name the same columns. *)
Definition fit_transform (raw_documents : list str) : exc + list (row N) :=
  let '(vocabulary, rows) := count_vocab raw_documents [] in
  match vocabulary with
  | [] => inl empty_vocabulary
  | _ :: _ => inr (map sort_indices rows)
  end.

(** ** Cosine similarity *)

(** [check_array(..., dtype=float64)] *)
Definition as_float (r : row N) : row float64 :=
  map (fun '(j, c) => (j, f64_of_Z (Z.of_N c))) r.

(** [normalize(X)] on one row: divide by the Euclidean norm; a row whose
    squares sum to zero is left alone. *)
Definition normalize_row (r : row float64) : row float64 :=
  let sum_ := fold_left (fun acc '(_, v) => f64_add acc (f64_mul v v)) r f64_zero in
  if f64_eqb sum_ f64_zero then r
  else
    let norm := f64_sqrt sum_ in
    map (fun '(j, v) => (j, f64_div v norm)) r.

(** Entry of the sparse product [A @ B.T] for one row of each: the stored
    entries of the first row are visited in storage order and those whose
    column the second row also stores are accumulated. *)
Definition sparse_dot (a b : row float64) : float64 :=
  fold_left
    (fun acc '(j, v) =>
       match row_get j b with
       | Some w => f64_add acc (f64_mul v w)
       | None => acc
       end)
    a f64_zero.

(** [cosine_similarity(X)[i][k]] *)
Definition cosine_similarity (X : list (row N)) (i k : nat) : float64 :=
  let Xn := map (fun r => normalize_row (as_float r)) X in
  sparse_dot (nth i Xn []) (nth k Xn []).

Definition match_score (resume_text job_description : str) : exc + float64 :=
  match fit_transform [resume_text; job_description] with
  | inl e => inl e
  | inr vect =>
      let score := cosine_similarity vect 0 1 in
      inr (f64_round (f64_mul score (f64_of_Z 100)) 2)
  end.

(** The two texts share no token. *)
Definition disjoint_vocabularies (a b : str) : Prop :=
  forall t, In t (analyze a) -> ~ In t (analyze b).

(** The vocabulary of one text alone: its distinct tokens in the order in
    which they first occur. *)
Definition own_vocabulary (doc : str) : list str :=
  fst (count_features (analyze doc) [] []).

(** The tokens the two texts share come first in both, in the same order:
    each vocabulary is the shared tokens followed by the tokens of that
    text only. *)
Definition shared_tokens_first (a b : str) : Prop :=
  exists shared only_a only_b,
    own_vocabulary a = shared ++ only_a
    /\ own_vocabulary b = shared ++ only_b
    /\ (forall t, In t only_a -> ~ In t only_b).







End Scorer.

(** ** Runs of failed attempts *)

(** The warnings of the attempts numbered [first], [first + 1], ... that
    raised [es]. *)
Fixpoint attempt_warnings (first : nat) (es : list exc) : list str :=
  match es with
  | [] => []
  | e :: rest => warning_text first e :: attempt_warnings (S first) rest
  end.

Section Attempts.

Variable St : Type.
Variable chat : St -> str -> str -> St * (exc + response).

(** Called again and again from state [s], the client raises the
    exceptions [es], each one caught by [except Exception], and is then in
    state [s_end]. *)
Fixpoint fails_with (es : list exc) (s : St) (message model : str)
    (s_end : St) : Prop :=
  match es with
  | [] => s_end = s
  | e :: rest =>
      exists s', chat_fails chat s message model s' e
                 /\ fails_with rest s' message model s_end
  end.

(** The world after the failed attempts [first], [first + 1], ... *)
Definition after_failures (w : world St) (prompt : str) (first : nat)
    (es : list exc) (s_end : St) : world St :=
  {| client_state := s_end;
     calls := calls w ++ repeat (prompt, DEFAULT_MODEL) (List.length es);
     warnings := warnings w ++ attempt_warnings first es;
     sleeps := sleeps w ++ repeat RETRY_DELAY (List.length es) |}.

(** The three ways the function ends once its arguments are accepted, after
    the failed attempts [es] that left the client in [s_end]. *)
Inductive outcome (w : world St) (prompt : str) (es : list exc) (s_end : St)
  : world St * (exc + str) -> Prop :=
| Answered s' r :
    List.length es < MAX_RETRIES ->
    chat s_end prompt DEFAULT_MODEL = (s', inr r) ->
    outcome w prompt es s_end
      (after_success (after_failures w prompt 0 es s_end) prompt s',
       inr (text r))
| Interrupted s' e :
    List.length es < MAX_RETRIES ->
    chat s_end prompt DEFAULT_MODEL = (s', inl e) ->
    is_Exception e = false ->
    outcome w prompt es s_end
      (after_success (after_failures w prompt 0 es s_end) prompt s', inl e)
| Exhausted :
    List.length es = MAX_RETRIES ->
    outcome w prompt es s_end
      (after_failures w prompt 0 es s_end,
       inl (Raised Exception
              (lit "Failed to analyze resume after multiple attempts.")
              None)).

End Attempts.

(** ** The application: [src/app.py]

    One run of the script, from the values the widgets hold to what is
    shown, stored and raised. The application runs in the monad of the
    retriever: the state behind the client is here everything the script
    can reach, which is the outside world (the remote service, the files),
    the session state and the screen. The calls of the Streamlit and
    plotting interfaces are recorded in the order they are made, each with
    the function called and the texts and numbers it is given (options of
    layout and style are left out); they are taken not to raise. *)

(** An uploaded file: its MIME type and its bytes. *)
Record upload := { upload_type : str; upload_data : list N }.

(** What the widgets return in one run. *)
Record inputs := {
  in_api_key : str;                    (* the password field of the sidebar *)
  in_job_role : str;
  in_job_description : str;
  in_persona : str;
  in_uploaded_file : option upload;
  in_analyze : bool;                   (* the "Analyze Resume" button *)
  in_download : bool                   (* the "Download Feedback" button *)
}.

(** The parts of what a call of the interface is given: a text, a number
    formatted by an f-string or plotted, an integer. *)
Inductive piece :=
| Text (s : str)
| Number (x : float64)
| Count (n : Z).

Record ui_call := { ui_fn : str; ui_args : list piece }.

Definition ui (fn : string) (s : str) : ui_call :=
  {| ui_fn := lit fn; ui_args := [Text s] |}.

Definition attribute_error : exc :=
  Raised (ExceptionSubclass (lit "AttributeError"))
    (lit "'NoneType' object has no attribute 'chat'") None.

(** Truth value of a string that may be [None]. *)
Definition truthy_opt (s : option str) : bool :=
  match s with
  | Some t => truthy t
  | None => false
  end.

Section App.

(** The outside world and the modules the script imports: [cohere] and the
    modules [resume_parser] and [pdf_exporter], which are not among the
    sources. A client object is a handle; whatever a call changes, in the
    object or behind it, is part of the outside world. *)
Variable Ext : Type.
Variable Client : Type.                (* a [cohere.Client] object *)
Variable cohere_Client : Ext -> str -> Ext * (exc + Client).
Variable Client_chat : Ext -> Client -> str -> str -> Ext * (exc + response).
Variable extract_text_from_pdf : Ext -> upload -> Ext * (exc + str).
Variable extract_text_from_docx : Ext -> upload -> Ext * (exc + str).
Variable export_feedback_as_pdf : Ext -> str -> Ext * (exc + str).
Variable open_rb : Ext -> str -> Ext * (exc + list N).
Variable str_lower : str -> str.
Variable re_word : char -> bool.

(** [st.session_state], once lines 12-21 have given every key a value. *)
Record session_state := {
  ss_feedback : option str;
  ss_resume_text : option str;
  ss_analysis_done : bool;
  ss_api_key_configured : bool;
  ss_cohere_client : option Client
}.

(** What lines 12-21 store in a session that has none of the keys. *)
Definition new_session : session_state :=
  {| ss_feedback := None;
     ss_resume_text := None;
     ss_analysis_done := false;
     ss_api_key_configured := false;
     ss_cohere_client := None |}.

Record app_state := {
  ext : Ext;
  session : session_state;
  screen : list ui_call
}.

Definition App (A : Type) : Type := M app_state A.

Notation "x <- c ;; k" := (bind c (fun x => k))
  (at level 61, c at next level, right associativity).
Notation "c ;;; k" := (bind c (fun _ => k))
  (at level 61, right associativity).

Definition gets {A} (f : app_state -> A) : App A :=
  fun w => (w, inr (f (client_state w))).

Definition modify (f : app_state -> app_state) : App unit :=
  fun w =>
    ({| client_state := f (client_state w);
        calls := calls w;
        warnings := warnings w;
        sleeps := sleeps w |}, inr tt).

Definition set_ext (x : Ext) (a : app_state) : app_state :=
  {| ext := x; session := session a; screen := screen a |}.

Definition set_session (f : session_state -> session_state) (a : app_state)
    : app_state :=
  {| ext := ext a; session := f (session a); screen := screen a |}.

(** A call of an imported module on the outside world. *)
Definition external {A} (op : Ext -> Ext * (exc + A)) : App A :=
  fun w =>
    let '(x, r) := op (ext (client_state w)) in
    ({| client_state := set_ext x (client_state w);
        calls := calls w;
        warnings := warnings w;
        sleeps := sleeps w |}, r).

(** A call of the interface. *)
Definition show (c : ui_call) : App unit :=
  modify (fun a =>
    {| ext := ext a; session := session a; screen := screen a ++ [c] |}).

(** The result of a function that raises or returns. *)
Definition lift {A} (r : exc + A) : App A := fun w => (w, r).

(** [co.chat] on a client object, or on [None]. *)
Definition chat_with (co : option Client) (a : app_state)
    (message model : str) : app_state * (exc + response) :=
  match co with
  | None => (a, inl attribute_error)
  | Some c =>
      let '(x, r) := Client_chat (ext a) c message model in
      (set_ext x a, r)
  end.

(** [analyze_resume_with_llm(..., co)] with the client of the session. On
    [None] every attempt ends at the lookup of [co.chat], which raises
    [AttributeError] before anything is called: the attempts are logged and
    slept on like any other failure, and no call is made. *)
Definition analyze_with (co : option Client)
    (resume_text job_role job_description : str) : App str :=
  match co with
  | Some _ =>
      analyze_resume_with_llm (chat_with co)
        resume_text job_role job_description
  | None =>
      fun w =>
        let '(w', r) :=
          analyze_resume_with_llm (chat_with co)
            resume_text job_role job_description w in
        ({| client_state := client_state w';
            calls := calls w;
            warnings := warnings w';
            sleeps := sleeps w' |}, r)
  end.

Definition store_feedback (v : option str) (s : session_state) : session_state :=
  {| ss_feedback := v;
     ss_resume_text := ss_resume_text s;
     ss_analysis_done := ss_analysis_done s;
     ss_api_key_configured := ss_api_key_configured s;
     ss_cohere_client := ss_cohere_client s |}.

Definition store_resume_text (v : option str) (s : session_state) : session_state :=
  {| ss_feedback := ss_feedback s;
     ss_resume_text := v;
     ss_analysis_done := ss_analysis_done s;
     ss_api_key_configured := ss_api_key_configured s;
     ss_cohere_client := ss_cohere_client s |}.

Definition store_analysis_done (v : bool) (s : session_state) : session_state :=
  {| ss_feedback := ss_feedback s;
     ss_resume_text := ss_resume_text s;
     ss_analysis_done := v;
     ss_api_key_configured := ss_api_key_configured s;
     ss_cohere_client := ss_cohere_client s |}.

Definition store_api_key_configured (v : bool) (s : session_state) : session_state :=
  {| ss_feedback := ss_feedback s;
     ss_resume_text := ss_resume_text s;
     ss_analysis_done := ss_analysis_done s;
     ss_api_key_configured := v;
     ss_cohere_client := ss_cohere_client s |}.

Definition store_cohere_client (v : option Client) (s : session_state) : session_state :=
  {| ss_feedback := ss_feedback s;
     ss_resume_text := ss_resume_text s;
     ss_analysis_done := ss_analysis_done s;
     ss_api_key_configured := ss_api_key_configured s;
     ss_cohere_client := v |}.

(** [configure_api_key], lines 29-51. *)
Definition configure_api_key (i : inputs) : App (option str) :=
  show (ui "st.sidebar.title" ([128273%N] ++ lit " API Setup")) ;;;
  show (ui "st.sidebar.info"
          (lit "To use the resume analysis features, get your free Cohere API key from [dashboard.cohere.com](https://dashboard.cohere.com) and paste it below.")) ;;;
  show (ui "st.sidebar.text_input" (lit "Enter Cohere API Key:")) ;;;
  let api_key := in_api_key i in
  if truthy api_key then
    try_except_Exception
      (co <- external (fun x => cohere_Client x api_key) ;;
       client_chat (chat_with (Some co)) (lit "Hello") (lit "command-r-mini") ;;;
       modify (set_session (store_api_key_configured true)) ;;;
       modify (set_session (store_cohere_client (Some co))) ;;;
       show (ui "st.sidebar.success" ([9989%N] ++ lit " API key validated!")) ;;;
       ret (Some api_key))
      (fun e =>
         show (ui "st.sidebar.error"
                 ([10060%N] ++ lit " Error validating API key: " ++ exc_str e)) ;;;
         modify (set_session (store_api_key_configured false)) ;;;
         ret None)
  else ret None.

(** Lines 113-142: the score and the charts. *)
Definition show_match_score (i : inputs) (resume_text : str) : App unit :=
  score <- lift (match_score str_lower re_word resume_text (in_job_description i)) ;;
  show {| ui_fn := lit "st.metric";
          ui_args := [Text (lit "Match Score"); Number score; Text (lit "%")] |} ;;;
  show {| ui_fn := lit "st.progress";
          ui_args := [Number (f64_div score (f64_of_Z 100))] |} ;;;
  show {| ui_fn := lit "st.plotly_chart";
          ui_args := [Text (lit "gauge+number"); Number score;
                      Text (lit "Resume Match Score"); Count 0; Count 100] |} ;;;
  show (ui "st.sidebar.markdown" (lit "### " ++ [128269%N] ++ lit " Quick Summary")) ;;;
  show (ui "st.sidebar.markdown" (lit "**Job Role:** " ++ in_job_role i)) ;;;
  show (ui "st.sidebar.markdown" (lit "**Tone Preference:** " ++ in_persona i)) ;;;
  show {| ui_fn := lit "st.sidebar.markdown";
          ui_args := [Text (lit "**Match Score:** "); Number score;
                      Text (lit "%")] |} ;;;
  show (ui "st.subheader" ([129504%N] ++ lit " Skill Coverage")) ;;;
  show {| ui_fn := lit "st.pyplot";
          ui_args := [Count 7; Count 3; Text (lit "Matched"); Text (lit "Missing");
                      Text (lit "%1.1f%%"); Text (lit "#4CAF50");
                      Text (lit "#F44336"); Text (lit "Skill Coverage")] |}.

(** Lines 86-142, what the "Analyze Resume" button starts. The result is
    [true] when the code has executed a [return] of [main]. *)
Definition analyze_clicked (i : inputs) (uploaded_file : upload) : App bool :=
  show (ui "st.spinner" (lit "Extracting text from resume...")) ;;;
  extracted <-
    try_except_Exception
      (resume_text <-
         (if str_eqb (upload_type uploaded_file) (lit "application/pdf")
          then external (fun x => extract_text_from_pdf x uploaded_file)
          else external (fun x => extract_text_from_docx x uploaded_file)) ;;
       if negb (truthy (strip resume_text)) then
         show (ui "st.error" (lit "No text could be extracted from the resume.")) ;;;
         ret None
       else
         modify (set_session (store_resume_text (Some resume_text))) ;;;
         ret (Some resume_text))
      (fun e =>
         show (ui "st.error" (lit "Error extracting text: " ++ exc_str e)) ;;;
         ret None) ;;
  match extracted with
  | None => ret true
  | Some resume_text =>
      show (ui "st.spinner" (lit "Analyzing resume with AI...")) ;;;
      failed <-
        try_except_Exception
          (co <- gets (fun a => ss_cohere_client (session a)) ;;
           feedback <- analyze_with co
                         resume_text (in_job_role i) (in_job_description i) ;;
           modify (set_session (store_feedback (Some feedback))) ;;;
           modify (set_session (store_analysis_done true)) ;;;
           show (ui "st.success" (lit "Analysis complete!")) ;;;
           ret false)
          (fun e =>
             show (ui "st.error" (lit "Error analyzing resume: " ++ exc_str e)) ;;;
             ret true) ;;
      if failed then ret true
      else if truthy (in_job_description i) then
        show_match_score i resume_text ;;; ret false
      else ret false
  end.

(** Lines 144-163: the report and its download. *)
Definition feedback_report (i : inputs) : App unit :=
  feedback <- gets (fun a => ss_feedback (session a)) ;;
  if truthy_opt feedback then
    show (ui "st.subheader" ([128203%N] ++ lit " Feedback Report")) ;;;
    show (ui "st.expander" (lit "View Detailed Feedback")) ;;;
    show (ui "st.markdown" (match feedback with Some t => t | None => [] end)) ;;;
    show (ui "st.button" ([128229%N] ++ lit " Download Feedback as PDF")) ;;;
    if in_download i then
      show (ui "st.spinner" (lit "Generating PDF...")) ;;;
      try_except_Exception
        (pdf_path <- external (fun x =>
                       export_feedback_as_pdf x
                         (match feedback with Some t => t | None => [] end)) ;;
         external (fun x => open_rb x pdf_path) ;;;
         show {| ui_fn := lit "st.download_button";
                 ui_args := [Text (lit "Download PDF Report");
                             Text (lit "resume_feedback_report.pdf");
                             Text (lit "application/pdf")] |})
        (fun e =>
           show (ui "st.error" (lit "Error generating PDF: " ++ exc_str e)))
    else ret tt
  else
    done <- gets (fun a => ss_analysis_done (session a)) ;;
    if done then
      show (ui "st.info" (lit "Upload a resume and enter a job role to get started."))
    else ret tt.

(** Lines 65-163 of [main]: the page behind the key. *)
Definition main_page (i : inputs) : App unit :=
    show {| ui_fn := lit "st.columns"; ui_args := [Count 1; Count 5] |} ;;;
    show (ui "st.image" (lit "logo.jpg")) ;;;
    show (ui "st.markdown" (lit "<h1 style='margin-bottom:0;'> Resume Sudharak</h1>")) ;;;
    show (ui "st.markdown"
            (lit "<p style='font-size:18px; color:gray;'>Empowering job seekers with AI-driven resume reform.</p>")) ;;;
    show {| ui_fn := lit "st.columns"; ui_args := [Count 1; Count 1] |} ;;;
    show (ui "st.subheader" (lit "Job Information")) ;;;
    show (ui "st.text_input" (lit "Target Job Role*")) ;;;
    show (ui "st.text_area" (lit "Job Description (Optional)")) ;;;
    show (ui "st.selectbox" (lit "Choose Resume Tone")) ;;;
    show (ui "st.file_uploader" (lit "Upload your Resume (PDF or DOCX)*")) ;;;
    show (ui "st.subheader" (lit "Analysis Results")) ;;;
    returned <-
      match in_uploaded_file i with
      | Some uploaded_file =>
          if truthy (in_job_role i) then
            show (ui "st.button" ([128269%N] ++ lit " Analyze Resume")) ;;;
            if in_analyze i then analyze_clicked i uploaded_file
            else ret false
          else ret false
      | None => ret false
      end ;;
    if returned then ret tt else feedback_report i.

(** [main], lines 53-163. *)
Definition main (i : inputs) : App unit :=
  show (ui "st.set_page_config" (lit "Resume Sudharak")) ;;;
  configure_api_key i ;;;
  configured <- gets (fun a => ss_api_key_configured (session a)) ;;
  if negb configured then
    show (ui "st.warning"
            (lit "Please enter your Cohere API key in the sidebar to get started."))
  else main_page i.

(** What [configure_api_key] shows in every run. *)
Definition key_widgets : list ui_call :=
  [ ui "st.sidebar.title" ([128273%N] ++ lit " API Setup");
    ui "st.sidebar.info"
      (lit "To use the resume analysis features, get your free Cohere API key from [dashboard.cohere.com](https://dashboard.cohere.com) and paste it below.");
    ui "st.sidebar.text_input" (lit "Enter Cohere API Key:") ].

(** What lines 65-82 show: the title and the widgets. *)
Definition page_widgets : list ui_call :=
  [ {| ui_fn := lit "st.columns"; ui_args := [Count 1; Count 5] |};
    ui "st.image" (lit "logo.jpg");
    ui "st.markdown" (lit "<h1 style='margin-bottom:0;'> Resume Sudharak</h1>");
    ui "st.markdown"
      (lit "<p style='font-size:18px; color:gray;'>Empowering job seekers with AI-driven resume reform.</p>");
    {| ui_fn := lit "st.columns"; ui_args := [Count 1; Count 1] |};
    ui "st.subheader" (lit "Job Information");
    ui "st.text_input" (lit "Target Job Role*");
    ui "st.text_area" (lit "Job Description (Optional)");
    ui "st.selectbox" (lit "Choose Resume Tone");
    ui "st.file_uploader" (lit "Upload your Resume (PDF or DOCX)*");
    ui "st.subheader" (lit "Analysis Results") ].

(** The validation call of [configure_api_key]. *)
Definition validation_call : str * str := (lit "Hello", lit "command-r-mini").

(** A world put together from its parts. *)
Definition world_of (x : Ext) (s : session_state) (sc : list ui_call)
    (cs : list (str * str)) (ws : list str) (sl : list Z) : world app_state :=
  {| client_state := {| ext := x; session := s; screen := sc |};
     calls := cs;
     warnings := ws;
     sleeps := sl |}.

(** The session holds a client whenever it says the key is configured. *)
Definition session_ok (s : session_state) : Prop :=
  ss_api_key_configured s = true -> ss_cohere_client s <> None.

(** A computation keeps a relation between the world it starts in and the
    world it ends in, whatever it returns or raises. *)
Definition keeps {A} (R : world app_state -> world app_state -> Prop)
    (c : App A) : Prop :=
  forall w, R w (fst (c w)).

(** Nothing but the outside world and the screen has changed. *)
Definition quiet (w w' : world app_state) : Prop :=
  session (client_state w') = session (client_state w)
  /\ calls w' = calls w
  /\ warnings w' = warnings w
  /\ sleeps w' = sleeps w.

(** The session still says the same of the key and holds the same client. *)
Definition same_key (w w' : world app_state) : Prop :=
  ss_api_key_configured (session (client_state w'))
  = ss_api_key_configured (session (client_state w))
  /\ ss_cohere_client (session (client_state w'))
     = ss_cohere_client (session (client_state w)).

(** The analysis stored in the session is as it was, nothing was logged,
    nothing slept, and the service received the validation call at most. *)
Definition analysis_untouched (w w' : world app_state) : Prop :=
  ss_feedback (session (client_state w'))
  = ss_feedback (session (client_state w))
  /\ ss_resume_text (session (client_state w'))
     = ss_resume_text (session (client_state w))
  /\ ss_analysis_done (session (client_state w'))
     = ss_analysis_done (session (client_state w))
  /\ warnings w' = warnings w
  /\ sleeps w' = sleeps w
  /\ (calls w' = calls w \/ calls w' = calls w ++ [validation_call]).

End App.

(** ** Clients and texts of the examples *)

Definition rate_limited : exc :=
  Raised (ExceptionSubclass (lit "TooManyRequestsError"))
    (lit "rate limit exceeded") None.

(** A client without state whose every call raises. *)
Definition failing_chat (s : unit) (message model : str) : unit * (exc + response) :=
  (tt, inl rate_limited).

(** A client that counts its calls, raises on the first two and answers the
    third. *)
Definition flaky_chat (n : nat) (message model : str) : nat * (exc + response) :=
  (S n, if Nat.ltb n 2 then inl rate_limited
        else inr {| text := lit "1. Missing Skills: Docker" |}).

(** A client that raises once and is then interrupted from the keyboard. *)
Definition keyboard_interrupt : exc :=
  Raised (BaseExceptionOnly (lit "KeyboardInterrupt")) [] None.

Definition interrupted_chat (n : nat) (message model : str)
    : nat * (exc + response) :=
  (S n, if Nat.ltb n 1 then inl rate_limited else inl keyboard_interrupt).

(** A client that is interrupted from the keyboard at every call. *)
Definition interrupting_chat (s : unit) (message model : str)
    : unit * (exc + response) :=
  (tt, inl keyboard_interrupt).

(** A client that answers every call. *)
Definition ready_chat (s : unit) (message model : str) : unit * (exc + response) :=
  (tt, inr {| text := lit "5. Overall Recommendations: none" |}).

(** Eight thousand spaces and then a resume. *)
Definition padded_resume : str := repeat 32%N 8000 ++ lit "Python developer".

(** An outside world for the examples: the number of calls the service
    has received. A client object is its key, and the service accepts one
    key only; the extractors read the bytes of the file as its text. *)
Definition unauthorized : exc :=
  Raised (ExceptionSubclass (lit "UnauthorizedError")) (lit "invalid api token") None.

Definition demo_Client (x : nat) (api_key : str) : nat * (exc + str) :=
  (x, inr api_key).

Definition demo_chat (x : nat) (co message model : str)
    : nat * (exc + response) :=
  (S x, if str_eqb co (lit "prod_ok")
        then inr {| text := lit "1. Missing Skills: Docker" |}
        else inl unauthorized).

(** A service that answers the validation call and is too busy for any
    other. *)
Definition busy_chat (x : nat) (co message model : str)
    : nat * (exc + response) :=
  (S x, if str_eqb model (lit "command-r-mini")
        then inr {| text := lit "Hi" |}
        else inl rate_limited).

(** A service that answers every call with the empty text. *)
Definition mute_chat (x : nat) (co message model : str)
    : nat * (exc + response) :=
  (S x, inr {| text := [] |}).

Definition demo_extract (x : nat) (f : upload) : nat * (exc + str) :=
  (x, inr (upload_data f)).

Definition demo_export (x : nat) (feedback : str) : nat * (exc + str) :=
  (x, inr (lit "resume_feedback_report.pdf")).

Definition demo_open (x : nat) (path : str) : nat * (exc + list N) :=
  (x, inr []).

Definition demo_inputs (api_key job_role job_description resume : string)
    (analyze : bool) : inputs :=
  {| in_api_key := lit api_key;
     in_job_role := lit job_role;
     in_job_description := lit job_description;
     in_persona := lit "Confident";
     in_uploaded_file :=
       Some {| upload_type := lit "application/pdf";
               upload_data := lit resume |};
     in_analyze := analyze;
     in_download := false |}.

Definition fresh_world {St : Type} (s : St) : world St :=
  {| client_state := s; calls := []; warnings := []; sleeps := [] |}.

Definition blank_text : str := lit "  " ++ nl.

Definition long_resume : str := repeat 97%N 8001.



(** ** Facts about strings *)

Lemma lstrip_blank (s : str) : lstrip s = [] <-> forallb isspace s = true.
Proof.
  induction s as [|c s IH]; simpl.
  - tauto.
  - destruct (isspace c); simpl.
    + exact IH.
    + split; discriminate.
Qed.

(** A string strips to nothing exactly when all its characters are white
    space. *)
Lemma strip_blank (s : str) : strip s = [] <-> forallb isspace s = true.
Proof.
  unfold strip, rstrip. split.
  - intros H. apply lstrip_blank.
    destruct (lstrip s) as [|c t] eqn:E; [reflexivity|].
    exfalso.
    assert (Hn : isspace c = false).
    { clear H. induction s as [|d s IH]; simpl in E; [discriminate|].
      destruct (isspace d) eqn:Ed; [auto|]. congruence. }
    apply (f_equal (@rev char)) in H. rewrite rev_involutive in H. simpl in H.
    apply lstrip_blank in H. rewrite forallb_app in H. simpl in H.
    rewrite Hn in H. rewrite andb_false_r in H. discriminate.
  - intros H. apply lstrip_blank in H. rewrite H. reflexivity.
Qed.

Lemma total_app (l l' : list Z) :
  fold_right Z.add 0%Z (l ++ l')
  = (fold_right Z.add 0 l + fold_right Z.add 0 l')%Z.
Proof. induction l as [|d l IH]; cbn [app fold_right]; lia. Qed.

Lemma truthy_false (s : str) : truthy s = false <-> s = [].
Proof. destruct s; simpl; split; congruence. Qed.

(** ** The retry loop *)

Section RetrieverFacts.

Variable St : Type.
Variable chat : St -> str -> str -> St * (exc + response).

Lemma retry_loop_failure attempt rest prompt (w : world St) s' e :
  chat_fails chat (client_state w) prompt DEFAULT_MODEL s' e ->
  retry_loop chat (attempt :: rest) prompt w
  = retry_loop chat rest prompt (after_failure w prompt attempt s' e).
Proof.
  intros [Hc He].
  cbn [retry_loop]. unfold bind at 1. unfold try_except_Exception.
  unfold bind at 1. unfold client_chat. rewrite Hc. rewrite He.
  reflexivity.
Qed.

Lemma retry_loop_success attempt rest prompt (w : world St) s' r :
  chat (client_state w) prompt DEFAULT_MODEL = (s', inr r) ->
  retry_loop chat (attempt :: rest) prompt w
  = (after_success w prompt s', inr (Some (text r))).
Proof.
  intros Hc.
  cbn [retry_loop]. unfold bind at 1. unfold try_except_Exception.
  unfold bind at 1. unfold client_chat. rewrite Hc.
  reflexivity.
Qed.

(** A call that raises what [except Exception] does not catch ends the
    loop with that exception. *)
Lemma retry_loop_uncaught attempt rest prompt (w : world St) s' e :
  chat (client_state w) prompt DEFAULT_MODEL = (s', inl e) ->
  is_Exception e = false ->
  retry_loop chat (attempt :: rest) prompt w
  = (after_success w prompt s', inl e).
Proof.
  intros Hc He.
  cbn [retry_loop]. unfold bind at 1. unfold try_except_Exception.
  unfold bind at 1. unfold client_chat. rewrite Hc. rewrite He.
  reflexivity.
Qed.

(** When every attempt fails the loop runs to its end: one call, one
    warning and one sleep per attempt. *)
Lemma retry_loop_all_fail attempts prompt :
  forall w : world St,
    fails_for chat (List.length attempts) (client_state w) prompt DEFAULT_MODEL ->
    exists w',
      retry_loop chat attempts prompt w = (w', inr None)
      /\ calls w' = calls w ++ repeat (prompt, DEFAULT_MODEL) (List.length attempts)
      /\ sleeps w' = sleeps w ++ repeat RETRY_DELAY (List.length attempts)
      /\ List.length (warnings w') = List.length (warnings w) + List.length attempts.
Proof.
  induction attempts as [|attempt rest IH]; intros w H.
  - exists w. cbn. rewrite !app_nil_r. auto.
  - cbn [List.length fails_for] in H. destruct H as (s' & e & Hf & Hrest).
    rewrite (retry_loop_failure attempt rest w Hf).
    destruct (IH (after_failure w prompt attempt s' e) Hrest)
      as (w' & Hrun & Hcalls & Hsleeps & Hwarn).
    exists w'. split; [exact Hrun|].
    cbn [after_failure calls sleeps warnings] in Hcalls, Hsleeps, Hwarn.
    cbn [List.length repeat].
    rewrite Hcalls, Hsleeps, Hwarn.
    rewrite <- !app_assoc. cbn [app].
    rewrite length_app. cbn [List.length].
    repeat split; lia.
Qed.

(** Whatever the client does, the loop calls it with the one prompt and
    the one model, at least once when there is an attempt to run, and at
    most once per attempt. *)
Lemma retry_loop_calls attempts prompt :
  forall w : world St,
    exists n,
      calls (fst (retry_loop chat attempts prompt w))
      = calls w ++ repeat (prompt, DEFAULT_MODEL) n
      /\ n <= List.length attempts
      /\ (attempts <> [] -> 1 <= n).
Proof.
  induction attempts as [|attempt rest IH]; intros w.
  - exists 0. cbn. rewrite app_nil_r. repeat split; [lia|congruence].
  - destruct (chat (client_state w) prompt DEFAULT_MODEL) as [s' [e|r]] eqn:Hc.
    + destruct (is_Exception e) eqn:He.
      * rewrite (@retry_loop_failure attempt rest prompt w s' e (conj Hc He)).
        destruct (IH (after_failure w prompt attempt s' e)) as (n & Hn & Hle & _).
        exists (S n). rewrite Hn. cbn [after_failure calls repeat List.length].
        rewrite <- app_assoc. cbn [app]. repeat split; lia.
      * rewrite (retry_loop_uncaught attempt rest w Hc He).
        exists 1. cbn [fst after_success calls repeat List.length].
        repeat split; lia.
    + rewrite (retry_loop_success attempt rest w Hc).
      exists 1. cbn [fst after_success calls repeat List.length].
      repeat split; lia.
Qed.

(** Past the validation the function is the loop followed by the final
    [raise]. *)
Lemma analyze_valid resume_text job_role job_description (w : world St) :
  strip resume_text <> [] ->
  strip job_role <> [] ->
  analyze_resume_with_llm chat resume_text job_role job_description w
  = bind (retry_loop chat (range MAX_RETRIES)
            (build_prompt resume_text job_role job_description))
      (fun r =>
         match r with
         | Some t => ret t
         | None =>
             raise_ Exception
               (lit "Failed to analyze resume after multiple attempts.")
         end) w.
Proof.
  intros Hr Hj. unfold analyze_resume_with_llm.
  destruct (strip resume_text); [congruence|].
  destruct (strip job_role); [congruence|].
  reflexivity.
Qed.

End RetrieverFacts.

(** ** The feedback retriever *)

(** C1, as stated, fails: a client whose every call raises
    [KeyboardInterrupt], which is no instance of [Exception] and which
    [except Exception] does not catch, is called once and not three times,
    and what the function raises is that interrupt, not the generic
    [Exception]. *)
Lemma interrupt_ends_the_attempts :
  (forall s message model,
     exists s' e, interrupting_chat s message model = (s', inl e))
  /\ analyze_resume_with_llm interrupting_chat
       (lit "Python developer") (lit "Engineer") [] (fresh_world tt)
     = ({| client_state := tt;
           calls := [(build_prompt (lit "Python developer") (lit "Engineer") [],
                      DEFAULT_MODEL)];
           warnings := [];
           sleeps := [] |},
        inl keyboard_interrupt)
  /\ keyboard_interrupt
     <> Raised Exception
          (lit "Failed to analyze resume after multiple attempts.") None.
Proof.
  split; [|split].
  - intros s message model. exists tt, keyboard_interrupt. reflexivity.
  - vm_compute. reflexivity.
  - discriminate.
Qed.

(** C1, amended. When the client raises, on each of the three attempts, an
    exception that [except Exception] catches (an instance of
    [Exception]), the function calls it exactly three times, each time
    with the same prompt and model, and then raises one generic
    [Exception]: its message is the fixed text and it has no
    [__context__], so nothing of the three failures is in it. *)
Theorem exhausted_retries_generic_error
    (St : Type) (chat : St -> str -> str -> St * (exc + response))
    (w : world St) (resume_text job_role job_description : str) :
  strip resume_text <> [] ->
  strip job_role <> [] ->
  fails_for chat MAX_RETRIES (client_state w)
    (build_prompt resume_text job_role job_description) DEFAULT_MODEL ->
  exists w',
    analyze_resume_with_llm chat resume_text job_role job_description w
    = (w', inl (Raised Exception
                  (lit "Failed to analyze resume after multiple attempts.")
                  None))
    /\ calls w'
       = calls w
         ++ repeat (build_prompt resume_text job_role job_description,
                    DEFAULT_MODEL) 3.
Proof.
  intros Hr Hj Hfail.
  rewrite (@analyze_valid St chat resume_text job_role job_description w Hr Hj).
  destruct (@retry_loop_all_fail St chat (range MAX_RETRIES) _ w Hfail)
    as (w' & Hrun & Hcalls & _).
  exists w'. unfold bind. rewrite Hrun. split; [reflexivity|exact Hcalls].
Qed.

Lemma exhausted_retries_generic_error_witness :
  exists w',
    analyze_resume_with_llm failing_chat
      (lit "Python developer") (lit "Engineer") [] (fresh_world tt)
    = (w', inl (Raised Exception
                  (lit "Failed to analyze resume after multiple attempts.")
                  None))
    /\ calls w'
       = calls (fresh_world tt)
         ++ repeat (build_prompt (lit "Python developer") (lit "Engineer") [],
                    DEFAULT_MODEL) 3.
Proof.
  apply exhausted_retries_generic_error.
  - vm_compute. discriminate.
  - vm_compute. discriminate.
  - cbn [MAX_RETRIES fails_for]. unfold chat_fails, failing_chat.
    repeat (exists tt, rate_limited; split; [split; reflexivity|]).
    exact I.
Defined.

(** C2. When every attempt fails, the function sleeps after each of them,
    the last one included: three sleeps of ten seconds, thirty seconds in
    all, before the final error is raised. *)
Theorem all_attempts_fail_three_sleeps
    (St : Type) (chat : St -> str -> str -> St * (exc + response))
    (w : world St) (resume_text job_role job_description : str) :
  strip resume_text <> [] ->
  strip job_role <> [] ->
  fails_for chat MAX_RETRIES (client_state w)
    (build_prompt resume_text job_role job_description) DEFAULT_MODEL ->
  exists w' e,
    analyze_resume_with_llm chat resume_text job_role job_description w
    = (w', inl e)
    /\ sleeps w' = sleeps w ++ [10; 10; 10]%Z
    /\ fold_right Z.add 0%Z (sleeps w')
       = (fold_right Z.add 0 (sleeps w) + 30)%Z.
Proof.
  intros Hr Hj Hfail.
  rewrite (@analyze_valid St chat resume_text job_role job_description w Hr Hj).
  destruct (@retry_loop_all_fail St chat (range MAX_RETRIES) _ w Hfail)
    as (w' & Hrun & _ & Hsleeps & _).
  exists w'. eexists. unfold bind. rewrite Hrun.
  split; [reflexivity|]. split; [exact Hsleeps|].
  rewrite Hsleeps, total_app. reflexivity.
Qed.

Lemma all_attempts_fail_three_sleeps_witness :
  exists w' e,
    analyze_resume_with_llm failing_chat
      (lit "Python developer") (lit "Engineer") [] (fresh_world tt)
    = (w', inl e)
    /\ sleeps w' = sleeps (fresh_world tt) ++ [10; 10; 10]%Z
    /\ fold_right Z.add 0%Z (sleeps w')
       = (fold_right Z.add 0 (sleeps (fresh_world tt)) + 30)%Z.
Proof.
  apply all_attempts_fail_three_sleeps.
  - vm_compute. discriminate.
  - vm_compute. discriminate.
  - cbn [MAX_RETRIES fails_for]. unfold chat_fails, failing_chat.
    repeat (exists tt, rate_limited; split; [split; reflexivity|]).
    exact I.
Defined.

(** C3. A resume text or a job role that is blank once stripped makes the
    function raise a [ValueError] at once: the world it returns is the one
    it started in, so the client was not called, nothing was logged and
    nothing slept. The resume is tested first and decides the message. *)
Theorem blank_input_rejected
    (St : Type) (chat : St -> str -> str -> St * (exc + response))
    (w : world St) (resume_text job_role job_description : str) :
  strip resume_text = [] \/ strip job_role = [] ->
  exists msg,
    analyze_resume_with_llm chat resume_text job_role job_description w
    = (w, inl (Raised ValueError msg None))
    /\ (strip resume_text = [] -> msg = lit "Resume text cannot be empty")
    /\ (strip resume_text <> [] -> msg = lit "Job role cannot be empty").
Proof.
  intros H. unfold analyze_resume_with_llm.
  destruct (strip resume_text) as [|c t] eqn:Er.
  - eexists. split; [reflexivity|]. split; [reflexivity|congruence].
  - destruct H as [H|H]; [discriminate|]. rewrite H.
    eexists. split; [reflexivity|]. split; [discriminate|reflexivity].
Qed.

Lemma blank_input_rejected_witness :
  exists msg,
    analyze_resume_with_llm flaky_chat
      (lit "Python developer") blank_text (lit "Backend role") (fresh_world 0)
    = (fresh_world 0, inl (Raised ValueError msg None))
    /\ (strip (lit "Python developer") = [] ->
        msg = lit "Resume text cannot be empty")
    /\ (strip (lit "Python developer") <> [] ->
        msg = lit "Job role cannot be empty").
Proof.
  apply blank_input_rejected. right. vm_compute. reflexivity.
Defined.

(** C4. When the client raises on the first two attempts and answers the
    third, the function returns the text of that third response and the
    client has been called exactly three times. *)
Theorem third_attempt_succeeds
    (St : Type) (chat : St -> str -> str -> St * (exc + response))
    (w : world St) (resume_text job_role job_description : str)
    (s1 s2 s3 : St) (e1 e2 : exc) (r : response) :
  strip resume_text <> [] ->
  strip job_role <> [] ->
  chat_fails chat (client_state w)
    (build_prompt resume_text job_role job_description) DEFAULT_MODEL s1 e1 ->
  chat_fails chat s1
    (build_prompt resume_text job_role job_description) DEFAULT_MODEL s2 e2 ->
  chat s2 (build_prompt resume_text job_role job_description) DEFAULT_MODEL
  = (s3, inr r) ->
  exists w',
    analyze_resume_with_llm chat resume_text job_role job_description w
    = (w', inr (text r))
    /\ calls w'
       = calls w
         ++ repeat (build_prompt resume_text job_role job_description,
                    DEFAULT_MODEL) 3.
Proof.
  intros Hr Hj H1 H2 H3.
  rewrite (@analyze_valid St chat resume_text job_role job_description w Hr Hj).
  unfold bind. cbn [range MAX_RETRIES seq].
  rewrite (retry_loop_failure 0 _ w H1).
  rewrite (@retry_loop_failure St chat 1 _ _ (after_failure w _ 0 s1 e1) s2 e2 H2).
  rewrite (@retry_loop_success St chat 2 _ _
             (after_failure (after_failure w _ 0 s1 e1) _ 1 s2 e2) s3 r H3).
  eexists. split; [reflexivity|].
  cbn [after_success after_failure calls repeat].
  rewrite <- !app_assoc. reflexivity.
Qed.

Lemma third_attempt_succeeds_witness :
  exists w',
    analyze_resume_with_llm flaky_chat
      (lit "Python developer") (lit "Engineer") [] (fresh_world 0)
    = (w', inr (text {| text := lit "1. Missing Skills: Docker" |}))
    /\ calls w'
       = calls (fresh_world 0)
         ++ repeat (build_prompt (lit "Python developer") (lit "Engineer") [],
                    DEFAULT_MODEL) 3.
Proof.
  apply (@third_attempt_succeeds nat flaky_chat (fresh_world 0)
           (lit "Python developer") (lit "Engineer") []
           1 2 3 rate_limited rate_limited).
  - vm_compute. discriminate.
  - vm_compute. discriminate.
  - split; reflexivity.
  - split; reflexivity.
  - reflexivity.
Defined.

(** C5. Every call the function makes carries the same prompt, and that
    prompt is the fixed text around the job role and description, then the
    embedded resume, then the fixed list of sections. A resume of at most
    8000 characters is embedded whole; of a longer one exactly the first
    8000 characters are embedded and the non-empty rest is left out. *)
Theorem prompt_embeds_first_8000
    (St : Type) (chat : St -> str -> str -> St * (exc + response))
    (w : world St) (resume_text job_role job_description : str) :
  strip resume_text <> [] ->
  strip job_role <> [] ->
  exists embedded n,
    1 <= n <= 3
    /\ calls (fst (analyze_resume_with_llm chat
                     resume_text job_role job_description w))
       = calls w
         ++ repeat (prompt_before job_role job_description
                      ++ embedded ++ prompt_sections, DEFAULT_MODEL) n
    /\ (List.length resume_text <= 8000 -> embedded = resume_text)
    /\ (8000 < List.length resume_text ->
        List.length embedded = 8000
        /\ exists rest, rest <> [] /\ resume_text = embedded ++ rest).
Proof.
  intros Hr Hj.
  rewrite (@analyze_valid St chat resume_text job_role job_description w Hr Hj).
  destruct (@retry_loop_calls St chat (range MAX_RETRIES)
              (build_prompt resume_text job_role job_description) w)
    as (n & Hcalls & Hle & Hpos).
  exists (slice_to 8000 resume_text), n.
  split; [|split; [|split]].
  - split; [apply Hpos; discriminate|exact Hle].
  - unfold bind.
    destruct (retry_loop chat (range MAX_RETRIES)
                (build_prompt resume_text job_role job_description) w)
      as [w' [e|[t|]]]; exact Hcalls.
  - intros Hlen. apply firstn_all2. exact Hlen.
  - intros Hlen. unfold slice_to. split.
    + apply firstn_length_le. apply Nat.lt_le_incl. exact Hlen.
    + exists (skipn 8000 resume_text). split.
      * intros Hnil. apply (f_equal (@List.length char)) in Hnil.
        rewrite length_skipn in Hnil. cbn [List.length] in Hnil.
        apply Nat.sub_0_le in Hnil.
        exact (Nat.lt_irrefl _ (Nat.lt_le_trans _ _ _ Hlen Hnil)).
      * symmetry. apply firstn_skipn.
Qed.

Lemma prompt_embeds_first_8000_witness :
  exists embedded n,
    1 <= n <= 3
    /\ calls (fst (analyze_resume_with_llm flaky_chat
                     long_resume (lit "Engineer") [] (fresh_world 0)))
       = calls (fresh_world 0)
         ++ repeat (prompt_before (lit "Engineer") []
                      ++ embedded ++ prompt_sections, DEFAULT_MODEL) n
    /\ (List.length long_resume <= 8000 -> embedded = long_resume)
    /\ (8000 < List.length long_resume ->
        List.length embedded = 8000
        /\ exists rest, rest <> [] /\ long_resume = embedded ++ rest).
Proof.
  apply prompt_embeds_first_8000.
  - vm_compute. discriminate.
  - vm_compute. discriminate.
Defined.

(** ** The vocabulary and the counters *)

Lemma str_eqb_eq (s t : str) : str_eqb s t = true <-> s = t.
Proof.
  revert t. induction s as [|c s IH]; intros [|d t]; cbn [str_eqb];
    try (split; congruence).
  rewrite andb_true_iff, N.eqb_eq, IH. split.
  - intros [-> ->]. reflexivity.
  - intros H. injection H as -> ->. auto.
Qed.

Lemma index_of_In (t : str) (vocabulary : list str) (i : nat) :
  index_of t vocabulary = Some i -> In t vocabulary.
Proof.
  revert i. induction vocabulary as [|u rest IH]; intros i; cbn [index_of].
  - discriminate.
  - destruct (str_eqb t u) eqn:E.
    + intros _. left. symmetry. apply str_eqb_eq. exact E.
    + destruct (index_of t rest) as [k|]; [|discriminate].
      intros _. right. apply (IH k). reflexivity.
Qed.

Lemma index_of_lt (t : str) (vocabulary : list str) (i : nat) :
  index_of t vocabulary = Some i -> i < List.length vocabulary.
Proof.
  revert i. induction vocabulary as [|u rest IH]; intros i; cbn [index_of List.length].
  - discriminate.
  - destruct (str_eqb t u).
    + intros [= <-]. lia.
    + destruct (index_of t rest) as [k|]; [|discriminate].
      intros [= <-]. specialize (IH k eq_refl). lia.
Qed.

(** Adding a term at the end changes no index: a term found afterwards was
    there before, at the same place, or is the new last one. *)
Lemma index_of_snoc (t u : str) (vocabulary : list str) (i : nat) :
  index_of t (vocabulary ++ [u]) = Some i ->
  index_of t vocabulary = Some i \/ i = List.length vocabulary.
Proof.
  revert i. induction vocabulary as [|v rest IH]; intros i;
    cbn [app index_of List.length].
  - destruct (str_eqb t u); [|discriminate]. intros [= <-]. right. reflexivity.
  - destruct (str_eqb t v); [intros H; left; exact H|].
    destruct (index_of t (rest ++ [u])) as [k|]; [|discriminate].
    intros [= <-]. destruct (IH k eq_refl) as [H| ->].
    + rewrite H. left. reflexivity.
    + right. reflexivity.
Qed.

Lemma vocabulary_index_spec (vocabulary vocabulary' : list str) (t : str) (j : nat) :
  vocabulary_index vocabulary t = (vocabulary', j) ->
  j < List.length vocabulary'
  /\ vocabulary' <> []
  /\ ((vocabulary' = vocabulary /\ index_of t vocabulary = Some j)
      \/ (vocabulary' = vocabulary ++ [t] /\ j = List.length vocabulary)).
Proof.
  unfold vocabulary_index.
  destruct (index_of t vocabulary) as [i|] eqn:E; intros [= <- <-].
  - split; [exact (index_of_lt _ _ E)|]. split.
    + apply index_of_In in E. destruct vocabulary; [destruct E|discriminate].
    + left. auto.
  - split; [rewrite length_app; cbn; lia|]. split.
    + destruct vocabulary; discriminate.
    + right. auto.
Qed.

Lemma keys_counter_incr (j k : nat) (counter : row N) :
  In k (keys (counter_incr j counter)) -> k = j \/ In k (keys counter).
Proof.
  induction counter as [|[i c] rest IH]; cbn [counter_incr keys map fst In].
  - intros [H|[]]. left. auto.
  - destruct (Nat.eqb j i); cbn [keys map fst In]; [tauto|].
    intros [H|H]; [tauto|]. destruct (IH H); tauto.
Qed.

(** The counters only grow the vocabulary, and leave it non-empty as soon
    as there is one feature. *)
Lemma count_features_vocabulary (features : list str) :
  forall vocabulary counter vocabulary' counter',
    count_features features vocabulary counter = (vocabulary', counter') ->
    List.length vocabulary <= List.length vocabulary'
    /\ (features <> [] -> vocabulary' <> [])
    /\ (forall t, In t vocabulary' -> In t vocabulary \/ In t features).
Proof.
  induction features as [|t rest IH]; intros v c v' c'; cbn [count_features].
  - intros [= <- <-]. repeat split; [lia|congruence|tauto].
  - destruct (vocabulary_index v t) as [v1 j] eqn:E. intros H.
    destruct (IH _ _ _ _ H) as (Hlen & _ & Hin).
    destruct (vocabulary_index_spec _ _ E) as (_ & Hne & Hv1).
    assert (Hlen1 : List.length v <= List.length v1).
    { destruct Hv1 as [[-> _]|[-> _]]; [lia|rewrite length_app; lia]. }
    split; [lia|]. split.
    + intros _ ->. destruct v1; [congruence|cbn in Hlen; lia].
    + intros u Hu. destruct (Hin u Hu) as [Hu1|Hu1]; [|right; right; exact Hu1].
      destruct Hv1 as [[-> _]|[-> _]]; [left; exact Hu1|].
      apply in_app_or in Hu1. destruct Hu1 as [Hu1|[<-|[]]].
      * left. exact Hu1.
      * right. left. reflexivity.
Qed.

(** Every column a counter stores is the index of a term. *)
Lemma count_features_keys_lt (features : list str) :
  forall vocabulary counter vocabulary' counter',
    count_features features vocabulary counter = (vocabulary', counter') ->
    (forall k, In k (keys counter) -> k < List.length vocabulary) ->
    forall k, In k (keys counter') -> k < List.length vocabulary'.
Proof.
  induction features as [|t rest IH]; intros v c v' c'; cbn [count_features].
  - intros [= <- <-] H. exact H.
  - destruct (vocabulary_index v t) as [v1 j] eqn:E. intros H Hc.
    apply (IH _ _ _ _ H).
    destruct (vocabulary_index_spec _ _ E) as (Hj & _ & Hv1).
    intros k Hk. destruct (keys_counter_incr _ _ _ Hk) as [->|Hk'].
    + exact Hj.
    + specialize (Hc k Hk').
      destruct Hv1 as [[-> _]|[-> _]]; [exact Hc|rewrite length_app; lia].
Qed.

(** Terms that are new to the first [n] columns are counted in columns
    from [n] on. *)
Lemma count_features_keys_ge (n : nat) (features : list str) :
  forall vocabulary counter vocabulary' counter',
    count_features features vocabulary counter = (vocabulary', counter') ->
    n <= List.length vocabulary ->
    (forall t i, In t features -> index_of t vocabulary = Some i -> n <= i) ->
    (forall k, In k (keys counter) -> n <= k) ->
    forall k, In k (keys counter') -> n <= k.
Proof.
  induction features as [|t rest IH]; intros v c v' c'; cbn [count_features].
  - intros [= <- <-] _ _ H. exact H.
  - destruct (vocabulary_index v t) as [v1 j] eqn:E. intros H Hn Hnew Hc.
    destruct (vocabulary_index_spec _ _ E) as (_ & _ & Hv1).
    assert (Hj : n <= j).
    { destruct Hv1 as [[_ Hi]|[_ ->]]; [|exact Hn].
      apply (Hnew t j); [left; reflexivity|exact Hi]. }
    apply (IH _ _ _ _ H).
    + destruct Hv1 as [[-> _]|[-> _]]; [exact Hn|rewrite length_app; lia].
    + intros u i Hu Hi. destruct Hv1 as [[-> _]|[-> _]].
      * apply (Hnew u i); [right; exact Hu|exact Hi].
      * destruct (index_of_snoc _ _ _ Hi) as [Hi'| ->]; [|exact Hn].
        apply (Hnew u i); [right; exact Hu|exact Hi'].
    + intros k Hk. destruct (keys_counter_incr _ _ _ Hk) as [->|Hk'];
        [exact Hj|exact (Hc k Hk')].
Qed.

(** ** The sparse product *)

Lemma row_get_None {A} (j : nat) (r : row A) :
  ~ In j (keys r) -> row_get j r = None.
Proof.
  induction r as [|[k v] r IH]; cbn [row_get keys map fst In]; [reflexivity|].
  intros H. destruct (Nat.eqb_spec j k) as [->|_]; [tauto|].
  apply IH. tauto.
Qed.

Lemma keys_row_insert {A} (j k : nat) (v : A) (r : row A) :
  In k (keys (row_insert j v r)) <-> k = j \/ In k (keys r).
Proof.
  induction r as [|[i w] r IH]; cbn [row_insert].
  - cbn. intuition.
  - destruct (Nat.leb j i).
    + change (keys ((j, v) :: (i, w) :: r)) with (j :: keys ((i, w) :: r)).
      cbn [In]. intuition.
    + change (keys ((i, w) :: row_insert j v r))
        with (i :: keys (row_insert j v r)).
      change (keys ((i, w) :: r)) with (i :: keys r).
      cbn [In]. rewrite IH. intuition.
Qed.

(** Sorting a row moves its entries and keeps its columns. *)
Lemma keys_sort_indices {A} (k : nat) (r : row A) :
  In k (keys (sort_indices r)) <-> In k (keys r).
Proof.
  induction r as [|[j v] r IH].
  - reflexivity.
  - change (sort_indices ((j, v) :: r)) with (row_insert j v (sort_indices r)).
    change (keys ((j, v) :: r)) with (j :: keys r).
    rewrite keys_row_insert, IH. cbn [In]. intuition.
Qed.

Lemma keys_as_float (r : row N) : keys (as_float r) = keys r.
Proof.
  unfold as_float, keys. rewrite map_map. apply map_ext. intros [j c]. reflexivity.
Qed.

Lemma keys_normalize_row (r : row float64) : keys (normalize_row r) = keys r.
Proof.
  unfold normalize_row. destruct (f64_eqb _ _); [reflexivity|].
  unfold keys. rewrite map_map. apply map_ext. intros [j v]. reflexivity.
Qed.

(** Rows that store no common column multiply to the zero the accumulator
    starts from: no product is ever added. *)
Lemma sparse_dot_disjoint (a b : row float64) :
  (forall j, In j (keys a) -> ~ In j (keys b)) ->
  sparse_dot a b = f64_zero.
Proof.
  unfold sparse_dot. generalize f64_zero as acc.
  induction a as [|[j v] a IH]; intros acc H; cbn [fold_left]; [reflexivity|].
  rewrite row_get_None by (apply H; left; reflexivity).
  apply IH. intros k Hk. apply H. right. exact Hk.
Qed.

(** ** The match score *)

Section ScorerFacts.

Variable str_lower : str -> str.
Variable re_word : char -> bool.

(** The runs the tokenizer reads are made of word characters. *)
Lemma word_runs_chars (s run : str) :
  Forall (fun c => re_word c = true) run ->
  Forall (Forall (fun c => re_word c = true)) (word_runs re_word s run).
Proof.
  revert run. induction s as [|c s IH]; intros run Hrun; cbn [word_runs].
  - constructor; [exact Hrun|constructor].
  - destruct (re_word c) eqn:Ec.
    + apply IH. apply Forall_app. split; [exact Hrun|].
      constructor; [exact Ec|constructor].
    + constructor; [exact Hrun|]. apply IH. constructor.
Qed.

(** A token is two or more word characters: words of one letter,
    punctuation and spaces give none. *)
Lemma analyze_tokens (doc t : str) :
  In t (analyze str_lower re_word doc) ->
  2 <= List.length t /\ Forall (fun c => re_word c = true) t.
Proof.
  unfold analyze, findall_tokens. intros H.
  apply filter_In in H. destruct H as [Hin Hlen]. split.
  - apply Nat.leb_le. exact Hlen.
  - pose proof (word_runs_chars (str_lower doc) (Forall_nil _)) as Hall.
    rewrite Forall_forall in Hall. exact (Hall t Hin).
Qed.

(** The score is computed exactly when one of the texts has a token. *)
Lemma fit_transform_rows (a b : str) :
  analyze str_lower re_word a <> [] \/ analyze str_lower re_word b <> [] ->
  exists vocabulary row_a vocabulary' row_b,
    count_features (analyze str_lower re_word a) [] [] = (vocabulary, row_a)
    /\ count_features (analyze str_lower re_word b) vocabulary []
       = (vocabulary', row_b)
    /\ fit_transform str_lower re_word [a; b]
     = inr [sort_indices row_a; sort_indices row_b].
Proof.
  intros Htok. unfold fit_transform. cbn [count_vocab].
  destruct (count_features (analyze str_lower re_word a) [] [])
    as [v0 r0] eqn:E0.
  destruct (count_features (analyze str_lower re_word b) v0 [])
    as [v1 r1] eqn:E1.
  exists v0, r0, v1, r1.
  split; [reflexivity|]. split; [exact E1|].
  destruct (count_features_vocabulary _ _ _ E0) as (_ & Hne0 & _).
  destruct (count_features_vocabulary _ _ _ E1) as (Hlen & Hne1 & _).
  destruct v1 as [|t v1]; [|reflexivity].
  exfalso. destruct Htok as [Ha|Hb].
  - specialize (Hne0 Ha). destruct v0; [congruence|cbn in Hlen; lia].
  - exact (Hne1 Hb eq_refl).
Qed.

(** Texts without a common token are counted in separate columns. *)
Lemma disjoint_rows (a b : str) vocabulary row_a vocabulary' row_b :
  disjoint_vocabularies str_lower re_word a b ->
  count_features (analyze str_lower re_word a) [] [] = (vocabulary, row_a) ->
  count_features (analyze str_lower re_word b) vocabulary []
  = (vocabulary', row_b) ->
  forall j, In j (keys row_a) -> ~ In j (keys row_b).
Proof.
  intros Hdis E0 E1 j Ha Hb.
  assert (Hlt : j < List.length vocabulary).
  { apply (count_features_keys_lt _ _ _ E0); [intros k []|exact Ha]. }
  assert (Hge : List.length vocabulary <= j).
  { apply (@count_features_keys_ge (List.length vocabulary) _ _ _ _ _ E1);
      [lia| |intros k []|exact Hb].
    intros t i Ht Hi. exfalso. apply index_of_In in Hi.
    destruct (count_features_vocabulary _ _ _ E0) as (_ & _ & Hin).
    destruct (Hin t Hi) as [[]|Hta].
    exact (Hdis t Hta Ht). }
  lia.
Qed.

End ScorerFacts.

(** C7, as stated, fails: two texts of one single-letter word each have no
    token in common, and the score is not zero but a [ValueError]. *)
Lemma disjoint_vocabularies_may_raise :
  disjoint_vocabularies lower_ascii word_ascii (lit "C") (lit "R")
  /\ match_score lower_ascii word_ascii (lit "C") (lit "R") <> inr f64_zero.
Proof.
  split.
  - intros t Ht. vm_compute in Ht. destruct Ht.
  - vm_compute. discriminate.
Qed.

(** C7, amended. Two texts without a common token, of which at least one
    has a token, score exactly [0.0]. *)
Theorem disjoint_vocabularies_score_zero
    (str_lower : str -> str) (re_word : char -> bool) (a b : str) :
  disjoint_vocabularies str_lower re_word a b ->
  analyze str_lower re_word a <> [] \/ analyze str_lower re_word b <> [] ->
  match_score str_lower re_word a b = inr f64_zero.
Proof.
  intros Hdis Htok. unfold match_score.
  destruct (@fit_transform_rows str_lower re_word a b Htok)
    as (v0 & r0 & v1 & r1 & E0 & E1 & ->).
  unfold cosine_similarity. cbn [map nth].
  rewrite sparse_dot_disjoint; [reflexivity|].
  intros j. rewrite !keys_normalize_row, !keys_as_float, !keys_sort_indices.
  exact (disjoint_rows Hdis E0 E1 j).
Qed.

Lemma disjoint_vocabularies_score_zero_witness :
  match_score lower_ascii word_ascii (lit "Python Java SQL") (lit "C++ Rust")
  = inr f64_zero.
Proof.
  apply disjoint_vocabularies_score_zero.
  - intros t Ha Hb. vm_compute in Ha, Hb.
    destruct Hb as [<-|[]].
    repeat (destruct Ha as [Ha|Ha]; [discriminate Ha|]). exact Ha.
  - left. vm_compute. discriminate.
Defined.

(** ** The order of the sums *)

(** The product of two binary64 numbers does not depend on their order. *)
Lemma f64_mul_comm (x y : float64) : f64_mul x y = f64_mul y x.
Proof.
  unfold f64_mul, SFmul.
  destruct x as [sx|sx| |sx mx ex], y as [sy|sy| |sy my ey];
    try reflexivity; try (rewrite xorb_comm; reflexivity).
  rewrite xorb_comm, Pos.mul_comm, Z.add_comm. reflexivity.
Qed.

Lemma sum_products_comm (vs ws : list float64) :
  sum_products vs ws = sum_products ws vs.
Proof.
  unfold sum_products. generalize f64_zero as acc. revert ws.
  induction vs as [|v vs IH]; intros [|w ws] acc; cbn [combine fold_left];
    try reflexivity.
  rewrite f64_mul_comm. apply IH.
Qed.

(** *** Terms and their columns *)

Lemma index_of_None (t : str) (vocabulary : list str) :
  index_of t vocabulary = None <-> ~ In t vocabulary.
Proof.
  split.
  - intros H Hin. induction vocabulary as [|u rest IH]; [destruct Hin|].
    cbn [index_of] in H.
    destruct (str_eqb t u) eqn:E; [discriminate|].
    destruct (index_of t rest) as [k|]; [discriminate|].
    destruct Hin as [->|Hin]; [|exact (IH eq_refl Hin)].
    assert (Ht : str_eqb t t = true) by (apply str_eqb_eq; reflexivity).
    congruence.
  - intros H. destruct (index_of t vocabulary) as [i|] eqn:E; [|reflexivity].
    exfalso. apply H. exact (index_of_In _ _ E).
Qed.

Lemma index_of_Some (t : str) (vocabulary : list str) :
  In t vocabulary -> exists i, index_of t vocabulary = Some i.
Proof.
  intros H. destruct (index_of t vocabulary) as [i|] eqn:E.
  - exists i. reflexivity.
  - apply index_of_None in E. contradiction.
Qed.

Lemma index_of_app_l (t : str) (vocabulary rest : list str) (i : nat) :
  index_of t vocabulary = Some i -> index_of t (vocabulary ++ rest) = Some i.
Proof.
  revert i. induction vocabulary as [|u v IH]; intros i; cbn [app index_of].
  - discriminate.
  - destruct (str_eqb t u); [auto|].
    destruct (index_of t v) as [k|]; [|discriminate].
    intros [= <-]. rewrite (IH k eq_refl). reflexivity.
Qed.

Lemma index_of_app_r (t : str) (vocabulary rest : list str) (i : nat) :
  ~ In t vocabulary ->
  index_of t rest = Some i ->
  index_of t (vocabulary ++ rest) = Some (List.length vocabulary + i).
Proof.
  intros Hn Hi.
  induction vocabulary as [|u v IH]; cbn [app index_of List.length].
  - exact Hi.
  - destruct (str_eqb t u) eqn:E.
    + apply str_eqb_eq in E. subst u. exfalso. apply Hn. left. reflexivity.
    + rewrite IH; [reflexivity|]. intros H. apply Hn. right. exact H.
Qed.

Lemma vocabulary_index_found (vocabulary : list str) (t : str) (j : nat) :
  index_of t vocabulary = Some j -> vocabulary_index vocabulary t = (vocabulary, j).
Proof. unfold vocabulary_index. intros ->. reflexivity. Qed.

(** The term looked up is in the vocabulary afterwards, in the column
    returned, and the vocabulary has only grown at its end. *)
Lemma vocabulary_index_grows (vocabulary vocabulary' : list str) (t : str) (j : nat) :
  vocabulary_index vocabulary t = (vocabulary', j) ->
  index_of t vocabulary' = Some j
  /\ exists rest, vocabulary' = vocabulary ++ rest.
Proof.
  unfold vocabulary_index.
  destruct (index_of t vocabulary) as [i|] eqn:E; intros [= <- <-].
  - split; [exact E|]. exists []. rewrite app_nil_r. reflexivity.
  - split; [|exists [t]; reflexivity].
    replace (List.length vocabulary) with (List.length vocabulary + 0) by lia.
    apply index_of_app_r.
    + apply index_of_None. exact E.
    + cbn [index_of].
      assert (H : str_eqb t t = true) by (apply str_eqb_eq; reflexivity).
      rewrite H. reflexivity.
Qed.

Lemma count_features_grows (features : list str) :
  forall vocabulary counter vocabulary' counter',
    count_features features vocabulary counter = (vocabulary', counter') ->
    exists rest, vocabulary' = vocabulary ++ rest.
Proof.
  induction features as [|t rest IH]; intros v c v' c'; cbn [count_features].
  - intros [= <- <-]. exists []. rewrite app_nil_r. reflexivity.
  - destruct (vocabulary_index v t) as [v1 j] eqn:E. intros H.
    destruct (vocabulary_index_grows _ _ E) as (_ & e1 & ->).
    destruct (IH _ _ _ _ H) as (e2 & ->).
    exists (e1 ++ e2). rewrite app_assoc. reflexivity.
Qed.

(** Every feature counted is a term of the vocabulary afterwards. *)
Lemma count_features_covers (features : list str) :
  forall vocabulary counter vocabulary' counter',
    count_features features vocabulary counter = (vocabulary', counter') ->
    forall t, In t features -> In t vocabulary'.
Proof.
  induction features as [|u rest IH]; intros v c v' c'; cbn [count_features].
  - intros _ t [].
  - destruct (vocabulary_index v u) as [v1 j] eqn:E. intros H t [<-|Ht].
    + destruct (vocabulary_index_grows _ _ E) as (Hj & _).
      destruct (@count_features_grows _ _ _ _ _ H) as (e & ->).
      apply in_or_app. left. exact (index_of_In _ _ Hj).
    + exact (IH _ _ _ _ H t Ht).
Qed.

(** No term is entered twice. *)
Lemma count_features_NoDup (features : list str) :
  forall vocabulary counter vocabulary' counter',
    count_features features vocabulary counter = (vocabulary', counter') ->
    NoDup vocabulary -> NoDup vocabulary'.
Proof.
  induction features as [|t rest IH]; intros v c v' c'; cbn [count_features].
  - intros [= <- <-] H. exact H.
  - unfold vocabulary_index.
    destruct (index_of t v) as [i|] eqn:E; intros H Hv.
    + exact (IH _ _ _ _ H Hv).
    + apply (IH _ _ _ _ H).
      apply index_of_None in E.
      apply NoDup_rev in Hv. rewrite <- (rev_involutive (v ++ [t])).
      apply NoDup_rev. rewrite rev_app_distr. cbn [rev app].
      constructor; [|exact Hv].
      intros Hin. apply in_rev in Hin. exact (E Hin).
Qed.

(** Counting over the vocabulary the count ends with gives the same
    counter: every term is found where the count had put it. *)
Lemma count_features_complete (features : list str) :
  forall vocabulary counter vocabulary' counter',
    count_features features vocabulary counter = (vocabulary', counter') ->
    count_features features vocabulary' counter = (vocabulary', counter').
Proof.
  induction features as [|t rest IH]; intros v c v' c'; cbn [count_features].
  - intros [= <- <-]. reflexivity.
  - destruct (vocabulary_index v t) as [v1 j] eqn:E. intros H.
    destruct (vocabulary_index_grows _ _ E) as (Hj & _).
    destruct (@count_features_grows _ _ _ _ _ H) as (e & Hv').
    assert (Hj' : index_of t v' = Some j).
    { rewrite Hv'. apply index_of_app_l. exact Hj. }
    rewrite (vocabulary_index_found _ _ Hj').
    exact (IH _ _ _ _ H).
Qed.

Lemma fst_count_features (features : list str) :
  forall vocabulary counter counter',
    fst (count_features features vocabulary counter)
    = fst (count_features features vocabulary counter').
Proof.
  induction features as [|t rest IH]; intros v c c'; cbn [count_features].
  - reflexivity.
  - destruct (vocabulary_index v t) as [v1 j]. apply IH.
Qed.

Lemma new_to_true (vocabulary : list str) (t : str) :
  new_to vocabulary t = true <-> ~ In t vocabulary.
Proof.
  unfold new_to. rewrite <- index_of_None.
  destruct (index_of t vocabulary); split; congruence.
Qed.

Lemma new_to_false (vocabulary : list str) (t : str) :
  new_to vocabulary t = false <-> In t vocabulary.
Proof.
  unfold new_to. split.
  - destruct (index_of t vocabulary) as [i|] eqn:E; [|discriminate].
    intros _. exact (index_of_In _ _ E).
  - intros H. destruct (index_of_Some _ _ H) as (i & ->). reflexivity.
Qed.

(** The vocabulary after a count over terms [u] that were there before:
    the terms of [u], then the terms the count alone would have entered
    that [u] does not have. *)
Lemma count_features_over (features : list str) :
  forall u w : list str,
    fst (count_features features (u ++ filter (new_to u) w) [])
    = u ++ filter (new_to u) (fst (count_features features w [])).
Proof.
  induction features as [|t rest IH]; intros u w; cbn [count_features].
  - reflexivity.
  - unfold vocabulary_index at 2.
    destruct (index_of t w) as [i|] eqn:Ew.
    + assert (Hin : In t (u ++ filter (new_to u) w)).
      { apply in_or_app. destruct (new_to u t) eqn:En.
        - right. apply filter_In. split; [exact (index_of_In _ _ Ew)|exact En].
        - left. apply new_to_false. exact En. }
      destruct (index_of_Some _ _ Hin) as (k & Hk).
      rewrite (vocabulary_index_found _ _ Hk).
      rewrite (fst_count_features rest _ _ []).
      rewrite (fst_count_features rest w _ []).
      apply IH.
    + rewrite (fst_count_features rest (w ++ [t]) _ []).
      rewrite <- IH. rewrite filter_app. cbn [filter].
      destruct (new_to u t) eqn:En.
      * assert (Hnew : index_of t (u ++ filter (new_to u) w) = None).
        { apply index_of_None. intros Hin. apply in_app_or in Hin.
          destruct Hin as [Hin|Hin].
          - apply new_to_true in En. exact (En Hin).
          - apply filter_In in Hin. destruct Hin as [Hin _].
            apply index_of_None in Ew. exact (Ew Hin). }
        unfold vocabulary_index. rewrite Hnew.
        rewrite (fst_count_features rest _ _ []).
        rewrite <- app_assoc. reflexivity.
      * assert (Hin : In t (u ++ filter (new_to u) w)).
        { apply in_or_app. left. apply new_to_false. exact En. }
        destruct (index_of_Some _ _ Hin) as (k & Hk).
        rewrite (vocabulary_index_found _ _ Hk).
        rewrite (fst_count_features rest _ _ []).
        rewrite app_nil_r. reflexivity.
Qed.

Lemma filter_none {A} (f : A -> bool) (l : list A) :
  (forall x, In x l -> f x = false) -> filter f l = [].
Proof.
  induction l as [|x l IH]; intros H; cbn [filter]; [reflexivity|].
  rewrite (H x) by (left; reflexivity). apply IH.
  intros y Hy. apply H. right. exact Hy.
Qed.

Lemma filter_all {A} (f : A -> bool) (l : list A) :
  (forall x, In x l -> f x = true) -> filter f l = l.
Proof.
  induction l as [|x l IH]; intros H; cbn [filter]; [reflexivity|].
  rewrite (H x) by (left; reflexivity). f_equal. apply IH.
  intros y Hy. apply H. right. exact Hy.
Qed.

(** *** The columns of a counter *)

Lemma keys_counter_incr_old (j : nat) (counter : row N) :
  In j (keys counter) -> keys (counter_incr j counter) = keys counter.
Proof.
  induction counter as [|[k c] rest IH]; cbn [counter_incr keys map fst In].
  - intros [].
  - destruct (Nat.eqb_spec j k) as [->|Hne]; cbn [map fst]; [reflexivity|].
    intros [H|H]; [congruence|]. f_equal. apply IH. exact H.
Qed.

Lemma keys_counter_incr_new (j : nat) (counter : row N) :
  ~ In j (keys counter) -> keys (counter_incr j counter) = keys counter ++ [j].
Proof.
  induction counter as [|[k c] rest IH]; cbn [counter_incr keys map fst In app].
  - reflexivity.
  - intros H. destruct (Nat.eqb_spec j k) as [->|Hne]; [tauto|].
    cbn [map fst]. f_equal. apply IH. tauto.
Qed.

(** A counter that starts with the vocabulary stores its columns in
    increasing order, one per term. *)
Lemma count_features_keys_seq (features : list str) :
  forall vocabulary counter vocabulary' counter',
    count_features features vocabulary counter = (vocabulary', counter') ->
    keys counter = seq 0 (List.length vocabulary) ->
    keys counter' = seq 0 (List.length vocabulary').
Proof.
  induction features as [|t rest IH]; intros v c v' c'; cbn [count_features].
  - intros [= <- <-] H. exact H.
  - unfold vocabulary_index.
    destruct (index_of t v) as [i|] eqn:E; intros H Hk.
    + apply (IH _ _ _ _ H).
      rewrite keys_counter_incr_old; [exact Hk|].
      rewrite Hk. apply in_seq. apply index_of_lt in E. lia.
    + apply (IH _ _ _ _ H).
      rewrite keys_counter_incr_new.
      * rewrite Hk, length_app. cbn [List.length].
        rewrite Nat.add_1_r, seq_S. reflexivity.
      * rewrite Hk. intros Hin. apply in_seq in Hin. lia.
Qed.

(** *** Renumbered columns *)

Lemma keys_renumber {A} (f : nat -> nat) (r : row A) :
  keys (renumber f r) = map f (keys r).
Proof.
  unfold keys, renumber. rewrite !map_map. apply map_ext. intros [j v]. reflexivity.
Qed.

Lemma vals_renumber {A} (f : nat -> nat) (r : row A) :
  vals (renumber f r) = vals r.
Proof.
  unfold vals, renumber. rewrite map_map. apply map_ext. intros [j v]. reflexivity.
Qed.

Lemma firstn_renumber {A} (f : nat -> nat) (n : nat) (r : row A) :
  firstn n (renumber f r) = renumber f (firstn n r).
Proof. unfold renumber. apply firstn_map. Qed.

Lemma counter_incr_renumber (f : nat -> nat) (j : nat) (counter : row N) :
  (forall i k, f i = f k -> i = k) ->
  counter_incr (f j) (renumber f counter) = renumber f (counter_incr j counter).
Proof.
  intros Hinj.
  induction counter as [|[k c] rest IH]; cbn [counter_incr renumber map].
  - reflexivity.
  - destruct (Nat.eqb_spec j k) as [->|Hne].
    + rewrite Nat.eqb_refl. reflexivity.
    + destruct (Nat.eqb_spec (f j) (f k)) as [He|_].
      * exfalso. apply Hne. apply Hinj. exact He.
      * cbn [map]. f_equal. exact IH.
Qed.

(** Two vocabularies that have the terms counted, the second in the
    columns [f] of the first: the counters are the same up to [f]. *)
Lemma count_features_renumber (f : nat -> nat) (features : list str)
    (p q : list str) :
  (forall i k, f i = f k -> i = k) ->
  (forall t, In t features ->
     exists i, index_of t p = Some i /\ index_of t q = Some (f i)) ->
  forall counter counter',
    count_features features p counter = (p, counter') ->
    count_features features q (renumber f counter) = (q, renumber f counter').
Proof.
  intros Hinj.
  induction features as [|t rest IH]; intros Hidx c c'; cbn [count_features].
  - intros [= <-]. reflexivity.
  - destruct (Hidx t (or_introl eq_refl)) as (i & Hp & Hq).
    rewrite (vocabulary_index_found _ _ Hp), (vocabulary_index_found _ _ Hq).
    rewrite (@counter_incr_renumber f _ _ Hinj).
    apply IH. intros u Hu. apply Hidx. right. exact Hu.
Qed.

Lemma shift_from_injective (n k i j : nat) :
  shift_from n k i = shift_from n k j -> i = j.
Proof.
  unfold shift_from.
  destruct (Nat.ltb_spec i n), (Nat.ltb_spec j n); lia.
Qed.

Lemma shift_from_monotone (n k i j : nat) :
  i <= j -> shift_from n k i <= shift_from n k j.
Proof.
  unfold shift_from.
  destruct (Nat.ltb_spec i n), (Nat.ltb_spec j n); lia.
Qed.

(** The counter of a text counted after another text: when the text's own
    vocabulary is [shared ++ own] and the other text has entered
    [shared ++ other] before, the counter is the one of the text alone
    with the columns of [own] moved behind those of [other]. *)
Lemma count_features_after (features shared other own : list str)
    (counter : row N) :
  count_features features [] [] = (shared ++ own, counter) ->
  (forall t, In t own -> ~ In t shared) ->
  (forall t, In t own -> ~ In t other) ->
  count_features features (shared ++ other) []
  = (shared ++ other ++ own,
     renumber (shift_from (List.length shared) (List.length other)) counter).
Proof.
  intros H0 Hs Ho.
  pose proof (@count_features_complete _ _ _ _ _ H0) as H0c.
  destruct (count_features features (shared ++ other) []) as [q r1] eqn:E1.
  assert (Hq : q = shared ++ other ++ own).
  { pose proof (count_features_over features (shared ++ other) []) as Hov.
    cbn [filter] in Hov. rewrite app_nil_r in Hov.
    rewrite E1, H0 in Hov. cbn [fst] in Hov. rewrite Hov.
    rewrite filter_app, filter_none, filter_all.
    - rewrite <- app_assoc. reflexivity.
    - intros t Ht. apply new_to_true. intros Hin.
      apply in_app_or in Hin. destruct Hin as [Hin|Hin].
      + exact (Hs t Ht Hin).
      + exact (Ho t Ht Hin).
    - intros t Ht. apply new_to_false. apply in_or_app. left. exact Ht. }
  subst q. f_equal.
  pose proof (@count_features_complete _ _ _ _ _ E1) as E1c.
  assert (Hsim :
    count_features features (shared ++ other ++ own)
      (renumber (shift_from (List.length shared) (List.length other)) [])
    = (shared ++ other ++ own,
       renumber (shift_from (List.length shared) (List.length other)) counter)).
  { apply (@count_features_renumber _ features (shared ++ own)).
    - intros i k. apply shift_from_injective.
    - intros t Ht.
      pose proof (@count_features_covers _ _ _ _ _ H0 t Ht) as Hin.
      destruct (index_of t shared) as [i|] eqn:Ei.
      + exists i. split; [apply index_of_app_l; exact Ei|].
        unfold shift_from.
        pose proof (index_of_lt _ _ Ei) as Hlt.
        apply Nat.ltb_lt in Hlt. rewrite Hlt.
        apply index_of_app_l. exact Ei.
      + apply index_of_None in Ei.
        apply in_app_or in Hin. destruct Hin as [Hin|Hin]; [contradiction|].
        destruct (index_of_Some _ _ Hin) as (k & Hk).
        exists (List.length shared + k). split.
        * apply index_of_app_r; assumption.
        * unfold shift_from.
          assert (Hge : Nat.ltb (List.length shared + k) (List.length shared) = false)
            by (apply Nat.ltb_ge; lia).
          rewrite Hge.
          replace (List.length shared + k + List.length other)
            with (List.length shared + (List.length other + k)) by lia.
          apply index_of_app_r; [exact Ei|].
          apply index_of_app_r; [exact (Ho t Hin)|exact Hk].
    - exact H0c. }
  cbn [renumber map] in Hsim. rewrite E1c in Hsim.
  injection Hsim as <-. reflexivity.
Qed.

(** *** Rows that are sorted already *)

Lemma sort_indices_sorted {A} (r : row A) :
  Sorted Nat.le (keys r) -> sort_indices r = r.
Proof.
  induction r as [|[j v] r IH]; intros H; [reflexivity|].
  change (keys ((j, v) :: r)) with (j :: keys r) in H.
  inversion H as [|? ? Hs Hh]; subst.
  change (sort_indices ((j, v) :: r)) with (row_insert j v (sort_indices r)).
  rewrite (IH Hs).
  destruct r as [|[k w] r]; [reflexivity|].
  change (keys ((k, w) :: r)) with (k :: keys r) in Hh.
  inversion Hh as [|? ? Hle]; subst.
  cbn [row_insert]. apply Nat.leb_le in Hle. rewrite Hle. reflexivity.
Qed.

Lemma Sorted_seq (start len : nat) : Sorted Nat.le (seq start len).
Proof.
  revert start. induction len as [|len IH]; intros start; cbn [seq].
  - constructor.
  - constructor; [apply IH|].
    destruct len; cbn [seq]; constructor. lia.
Qed.

Lemma Sorted_map (f : nat -> nat) (l : list nat) :
  (forall i j, i <= j -> f i <= f j) ->
  Sorted Nat.le l -> Sorted Nat.le (map f l).
Proof.
  intros Hf H. induction H as [|a l Hs IH Hh]; cbn [map].
  - constructor.
  - constructor; [exact IH|].
    destruct Hh as [|b l Hab]; cbn [map]; constructor. apply Hf. exact Hab.
Qed.

(** *** Normalization and renumbering *)

Lemma as_float_renumber (f : nat -> nat) (r : row N) :
  as_float (renumber f r) = renumber f (as_float r).
Proof.
  unfold as_float, renumber. rewrite !map_map. apply map_ext.
  intros [j c]. reflexivity.
Qed.

Lemma normalize_row_renumber (f : nat -> nat) (r : row float64) :
  normalize_row (renumber f r) = renumber f (normalize_row r).
Proof.
  unfold normalize_row.
  assert (Hsum : forall acc,
    fold_left (fun acc '(_, v) => f64_add acc (f64_mul v v)) (renumber f r) acc
    = fold_left (fun acc '(_, v) => f64_add acc (f64_mul v v)) r acc).
  { induction r as [|[j v] r IH]; intros acc; cbn [renumber map fold_left].
    - reflexivity.
    - apply IH. }
  rewrite Hsum. destruct (f64_eqb _ _); [reflexivity|].
  unfold renumber. rewrite !map_map. apply map_ext. intros [j v]. reflexivity.
Qed.

(** *** The sparse product of rows whose common columns come first *)

Lemma row_get_app_miss {A} (j : nat) (pre r : row A) :
  ~ In j (keys pre) -> row_get j (pre ++ r) = row_get j r.
Proof.
  induction pre as [|[k v] pre IH]; cbn [app row_get keys map fst In].
  - reflexivity.
  - intros H. destruct (Nat.eqb_spec j k) as [->|_]; [tauto|].
    apply IH. tauto.
Qed.

Lemma sparse_dot_misses (x y : row float64) (acc : float64) :
  (forall j, In j (keys x) -> ~ In j (keys y)) ->
  fold_left
    (fun acc '(j, v) =>
       match row_get j y with
       | Some w => f64_add acc (f64_mul v w)
       | None => acc
       end) x acc
  = acc.
Proof.
  revert acc. induction x as [|[j v] x IH]; intros acc H; cbn [fold_left];
    [reflexivity|].
  rewrite row_get_None by (apply H; left; reflexivity).
  apply IH. intros k Hk. apply H. right. exact Hk.
Qed.

Lemma sparse_dot_hits (y2 : row float64) :
  forall (x1 y1 pre : row float64) (acc : float64),
    keys x1 = keys y1 ->
    NoDup (keys pre ++ keys x1) ->
    fold_left
      (fun acc '(j, v) =>
         match row_get j (pre ++ y1 ++ y2) with
         | Some w => f64_add acc (f64_mul v w)
         | None => acc
         end) x1 acc
    = fold_left (fun acc '(v, w) => f64_add acc (f64_mul v w))
        (combine (vals x1) (vals y1)) acc.
Proof.
  induction x1 as [|[j v] x1 IH]; intros [|[k w] y1] pre acc Hk Hnd;
    try discriminate Hk; [reflexivity|].
  change (keys ((j, v) :: x1)) with (j :: keys x1) in Hk, Hnd.
  change (keys ((k, w) :: y1)) with (k :: keys y1) in Hk.
  injection Hk as <- Hk.
  cbn [fold_left vals map snd combine].
  rewrite row_get_app_miss.
  - cbn [app row_get]. rewrite Nat.eqb_refl.
    specialize (IH y1 (pre ++ [(j, w)]) (f64_add acc (f64_mul v w)) Hk).
    rewrite <- app_assoc in IH. cbn [app] in IH. apply IH.
    unfold keys at 1. rewrite map_app. cbn [map fst].
    rewrite <- app_assoc. exact Hnd.
  - intros Hin. apply NoDup_remove_2 in Hnd. apply Hnd.
    apply in_or_app. left. exact Hin.
Qed.

(** When the first [n] entries of both rows are in the same columns and
    the first row has no other column of the second, the product is the
    sum of the products of those entries, in their order. *)
Lemma sparse_dot_shared (x y : row float64) (n : nat) :
  keys (firstn n x) = keys (firstn n y) ->
  NoDup (keys (firstn n x)) ->
  (forall j, In j (keys (skipn n x)) -> ~ In j (keys y)) ->
  sparse_dot x y = sum_products (vals (firstn n x)) (vals (firstn n y)).
Proof.
  intros Hk Hnd Hmiss. unfold sparse_dot, sum_products.
  rewrite <- (firstn_skipn n x) at 1. rewrite fold_left_app.
  rewrite sparse_dot_misses by exact Hmiss.
  pose proof (@sparse_dot_hits (skipn n y) (firstn n x) (firstn n y) []
                f64_zero Hk Hnd) as H.
  cbn [app] in H. rewrite (firstn_skipn n y) in H. exact H.
Qed.

Lemma firstn_seq_add (start n k : nat) :
  firstn n (seq start (n + k)) = seq start n.
Proof.
  revert start. induction n as [|n IH]; intros start; cbn [Nat.add seq firstn].
  - reflexivity.
  - f_equal. apply IH.
Qed.

(** The cosine of two rows, the first with [n + k] columns in order, the
    second counted after it with its first [n] columns in common: the
    products of the first [n] normalized values of each. *)
Lemma cosine_shared_first (row_a row_b : row N) (n k m : nat) :
  keys row_a = seq 0 (n + k) ->
  keys row_b = seq 0 (n + m) ->
  cosine_similarity
    [sort_indices row_a; sort_indices (renumber (shift_from n k) row_b)] 0 1
  = sum_products
      (vals (firstn n (normalize_row (as_float row_a))))
      (vals (firstn n (normalize_row (as_float row_b)))).
Proof.
  intros Ha Hb.
  assert (Hfix : map (shift_from n k) (seq 0 n) = seq 0 n).
  { rewrite <- (map_id (seq 0 n)) at 2. apply map_ext_in.
    intros i Hi. apply in_seq in Hi. unfold shift_from.
    assert (H : Nat.ltb i n = true) by (apply Nat.ltb_lt; lia).
    rewrite H. reflexivity. }
  rewrite (sort_indices_sorted row_a) by (rewrite Ha; apply Sorted_seq).
  rewrite (sort_indices_sorted (renumber (shift_from n k) row_b)).
  2:{ rewrite keys_renumber, Hb. apply Sorted_map; [|apply Sorted_seq].
      intros i j. apply shift_from_monotone. }
  unfold cosine_similarity. cbn [map nth].
  rewrite as_float_renumber, normalize_row_renumber.
  assert (Hka : keys (normalize_row (as_float row_a)) = seq 0 (n + k))
    by (rewrite keys_normalize_row, keys_as_float; exact Ha).
  assert (Hkb : keys (normalize_row (as_float row_b)) = seq 0 (n + m))
    by (rewrite keys_normalize_row, keys_as_float; exact Hb).
  assert (Hfa : keys (firstn n (normalize_row (as_float row_a))) = seq 0 n).
  { unfold keys. rewrite <- firstn_map. fold (keys (normalize_row (as_float row_a))).
    rewrite Hka. apply firstn_seq_add. }
  rewrite (@sparse_dot_shared _ _ n).
  - rewrite firstn_renumber, vals_renumber. reflexivity.
  - rewrite Hfa, firstn_renumber, keys_renumber.
    unfold keys. rewrite <- firstn_map.
    fold (keys (normalize_row (as_float row_b))).
    rewrite Hkb, firstn_seq_add.
    symmetry. exact Hfix.
  - rewrite Hfa. apply seq_NoDup.
  - intros j Hj Hin.
    unfold keys in Hj. rewrite <- skipn_map in Hj.
    fold (keys (normalize_row (as_float row_a))) in Hj.
    rewrite Hka, skipn_seq in Hj. apply in_seq in Hj.
    rewrite keys_renumber, Hkb in Hin. apply in_map_iff in Hin.
    destruct Hin as (i & Hi & _). unfold shift_from in Hi.
    destruct (Nat.ltb_spec i n); lia.
Qed.

Section SymmetryFacts.

Variable str_lower : str -> str.
Variable re_word : char -> bool.

(** The vocabulary of a text has each of its tokens once. *)
Lemma own_vocabulary_tokens (a : str) :
  NoDup (own_vocabulary str_lower re_word a)
  /\ forall t, In t (own_vocabulary str_lower re_word a)
               <-> In t (analyze str_lower re_word a).
Proof.
  unfold own_vocabulary.
  destruct (count_features (analyze str_lower re_word a) [] []) as [v r] eqn:E.
  cbn [fst]. split.
  - apply (@count_features_NoDup _ _ _ _ _ E). constructor.
  - intros t. split.
    + intros Ht.
      destruct (@count_features_vocabulary _ _ _ _ _ E) as (_ & _ & Hin).
      destruct (Hin t Ht) as [[]|H]. exact H.
    + apply (@count_features_covers _ _ _ _ _ E).
Qed.

(** The rows of two texts whose common tokens come first. *)
Lemma shared_first_rows (a b : str) (shared only_a only_b : list str) :
  own_vocabulary str_lower re_word a = shared ++ only_a ->
  own_vocabulary str_lower re_word b = shared ++ only_b ->
  (forall t, In t only_b -> ~ In t only_a) ->
  analyze str_lower re_word a <> [] \/ analyze str_lower re_word b <> [] ->
  exists row_a row_b,
    keys row_a = seq 0 (List.length shared + List.length only_a)
    /\ keys row_b = seq 0 (List.length shared + List.length only_b)
    /\ snd (count_features (analyze str_lower re_word a) [] []) = row_a
    /\ snd (count_features (analyze str_lower re_word b) [] []) = row_b
    /\ fit_transform str_lower re_word [a; b]
       = inr [sort_indices row_a;
              sort_indices
                (renumber (shift_from (List.length shared) (List.length only_a))
                   row_b)].
Proof.
  unfold own_vocabulary. intros Ha Hb Hdis Htok.
  destruct (@fit_transform_rows str_lower re_word a b Htok)
    as (v0 & r0 & v1 & r1 & E0 & E1 & Hfit).
  rewrite E0 in Ha. cbn [fst] in Ha. subst v0.
  destruct (count_features (analyze str_lower re_word b) [] [])
    as [w0 rb] eqn:E0'.
  cbn [fst] in Hb. subst w0.
  exists r0, rb.
  assert (Hnd : NoDup (shared ++ only_b)).
  { apply (@count_features_NoDup _ _ _ _ _ E0'). constructor. }
  assert (Hs : forall t, In t only_b -> ~ In t shared).
  { intros t Ht Hin.
    clear - Hnd Ht Hin. induction shared as [|u s IH]; [destruct Hin|].
    cbn [app] in Hnd. inversion Hnd as [|? ? Hu Hrest]; subst.
    destruct Hin as [->|Hin].
    - apply Hu. apply in_or_app. right. exact Ht.
    - exact (IH Hrest Hin). }
  rewrite (@count_features_after _ shared only_a only_b rb E0' Hs Hdis) in E1.
  injection E1 as _ <-.
  split.
  { rewrite (@count_features_keys_seq _ _ _ _ _ E0 eq_refl), length_app.
    reflexivity. }
  split.
  { rewrite (@count_features_keys_seq _ _ _ _ _ E0' eq_refl), length_app.
    reflexivity. }
  rewrite E0. cbn [snd]. repeat split. exact Hfit.
Qed.

End SymmetryFacts.

(** *** Integers in binary64

    An integer below [2^53] is a binary64 number, and so are the sums and
    the products of such integers that stay below [2^53]: adding and
    multiplying them rounds nothing away. *)

Section Binary64Facts.

Local Open Scope Z_scope.




















End Binary64Facts.

(** *** Terms and columns, again *)







(** *** Lookups in renumbered and in sorted rows *)






Lemma sparse_dot_ext (x y y' : row float64) :
  (forall j, In j (keys x) -> row_get j y = row_get j y') ->
  sparse_dot x y = sparse_dot x y'.
Proof.
  unfold sparse_dot. generalize f64_zero as acc.
  induction x as [|[j v] x IH]; intros acc H; cbn [fold_left]; [reflexivity|].
  rewrite (H j) by (left; reflexivity).
  apply IH. intros k Hk. apply H. right. exact Hk.
Qed.

(** *** Sorting and the values of a row *)






(** *** The norm of a row of counts *)




(** *** The size of a counter *)





(** *** The sparse product, term by term *)





(** *** The order of the common tokens *)








(** X22. When the tokens the two texts share come first in both texts, in
    the same order, [match_score] does not depend on the order of its
    arguments, however long the texts are: both calls return the same
    number, or both raise the error of the empty vocabulary. *)
Theorem match_score_symmetric_shared_first
    (str_lower : str -> str) (re_word : char -> bool) (a b : str) :
  shared_tokens_first str_lower re_word a b ->
  match_score str_lower re_word a b = match_score str_lower re_word b a.
Proof.
  intros (shared & only_a & only_b & Ha & Hb & Hdis).
  assert (Hcase :
    (analyze str_lower re_word a = [] /\ analyze str_lower re_word b = [])
    \/ (analyze str_lower re_word a <> [] \/ analyze str_lower re_word b <> [])).
  { destruct (analyze str_lower re_word a); destruct (analyze str_lower re_word b);
      [left; auto|right; right; discriminate
      |right; left; discriminate|right; left; discriminate]. }
  destruct Hcase as [[Ea Eb]|Htok].
  - unfold match_score, fit_transform. cbn [count_vocab].
    rewrite Ea, Eb. reflexivity.
  - assert (Htok' : analyze str_lower re_word b <> []
                    \/ analyze str_lower re_word a <> []) by tauto.
    destruct (@shared_first_rows str_lower re_word a b shared only_a only_b
                Ha Hb (fun t Hb' Ha' => Hdis t Ha' Hb') Htok)
      as (row_a & row_b & Hka & Hkb & Era & Erb & Hfit).
    destruct (@shared_first_rows str_lower re_word b a shared only_b only_a
                Hb Ha Hdis Htok')
      as (row_b' & row_a' & Hkb' & Hka' & Erb' & Era' & Hfit').
    rewrite Erb in Erb'. rewrite Era in Era'. subst row_b' row_a'.
    unfold match_score. rewrite Hfit, Hfit'.
    rewrite (@cosine_shared_first row_a row_b _ _ _ Hka Hkb).
    rewrite (@cosine_shared_first row_b row_a _ _ _ Hkb Hka).
    rewrite sum_products_comm. reflexivity.
Qed.

Lemma match_score_symmetric_shared_first_witness :
  match_score lower_ascii word_ascii
    (lit "Python, SQL and Java") (lit "Python, SQL with Rust")
  = match_score lower_ascii word_ascii
      (lit "Python, SQL with Rust") (lit "Python, SQL and Java").
Proof.
  apply match_score_symmetric_shared_first.
  exists [lit "python"; lit "sql"], [lit "and"; lit "java"], [lit "with"; lit "rust"].
  split; [vm_compute; reflexivity|].
  split; [vm_compute; reflexivity|].
  intros t Ha Hb. vm_compute in Ha, Hb.
  repeat (destruct Ha as [Ha|Ha];
          [subst t; repeat (destruct Hb as [Hb|Hb]; [discriminate Hb|]);
           exact Hb|]).
  exact Ha.
Defined.

(** C10. When the vectorizer finds no token in either text, the score is
    not a number: [match_score] raises the [ValueError] of the empty
    vocabulary. *)
Theorem no_token_raises
    (str_lower : str -> str) (re_word : char -> bool) (a b : str) :
  analyze str_lower re_word a = [] ->
  analyze str_lower re_word b = [] ->
  match_score str_lower re_word a b = inl empty_vocabulary.
Proof.
  intros Ha Hb. unfold match_score, fit_transform. cbn [count_vocab].
  rewrite Ha, Hb. reflexivity.
Qed.

Lemma no_token_raises_witness :
  match_score lower_ascii word_ascii (lit "a b c") (lit "?!")
  = inl empty_vocabulary.
Proof.
  apply no_token_raises; vm_compute; reflexivity.
Defined.

(** The example of the specification: a partial overlap scores 66.67, and a
    text against itself 100.0. *)
Example partial_overlap_score :
  match_score lower_ascii word_ascii
    (lit "Python Java SQL") (lit "Python SQL required")
  = inr (f64_div (f64_of_Z 6667) (f64_of_Z 100)).
Proof. vm_compute. reflexivity. Qed.

Example identical_texts_score :
  match_score lower_ascii word_ascii
    (lit "Python Java SQL") (lit "Python Java SQL")
  = inr (f64_of_Z 100).
Proof. vm_compute. reflexivity. Qed.

(** Texts in which the vectorizer finds no token: the empty text, a text of
    punctuation, a text of words of one letter. *)
Example analyze_empty_text : analyze lower_ascii word_ascii [] = [].
Proof. reflexivity. Qed.

Example analyze_punctuation :
  analyze lower_ascii word_ascii (lit "... --- !?") = [].
Proof. vm_compute. reflexivity. Qed.

Example analyze_single_letters :
  analyze lower_ascii word_ascii (lit "C R a b") = [].
Proof. vm_compute. reflexivity. Qed.

Example analyze_lower_cases :
  analyze lower_ascii word_ascii (lit "Python, SQL & C")
  = [lit "python"; lit "sql"].
Proof. vm_compute. reflexivity. Qed.

(** ** Every way the retriever ends *)

Section AttemptsFacts.

Variable St : Type.
Variable chat : St -> str -> str -> St * (exc + response).

Lemma after_failures_nil (w : world St) prompt first :
  after_failures w prompt first [] (client_state w) = w.
Proof.
  destruct w. unfold after_failures. cbn. rewrite !app_nil_r. reflexivity.
Qed.

Lemma after_failures_cons (w : world St) prompt first e es s' s_end :
  after_failures (after_failure w prompt first s' e) prompt (S first) es s_end
  = after_failures w prompt first (e :: es) s_end.
Proof.
  unfold after_failures, after_failure. cbn [calls warnings sleeps].
  cbn [List.length repeat attempt_warnings].
  rewrite <- !app_assoc. reflexivity.
Qed.

(** The loop goes through a run of failures one call, one warning and one
    sleep at a time. *)
Lemma retry_loop_fails_with es prompt :
  forall first rest (w : world St) s_end,
    fails_with chat es (client_state w) prompt DEFAULT_MODEL s_end ->
    retry_loop chat (seq first (List.length es) ++ rest) prompt w
    = retry_loop chat rest prompt (after_failures w prompt first es s_end).
Proof.
  induction es as [|e es IH]; intros first rest w s_end H.
  - cbn in H. subst s_end. rewrite after_failures_nil. reflexivity.
  - cbn [fails_with] in H. destruct H as (s' & Hf & Hrest).
    cbn [List.length seq app].
    rewrite (retry_loop_failure first _ w Hf).
    rewrite (IH (S first) rest (after_failure w prompt first s' e) s_end Hrest).
    rewrite after_failures_cons. reflexivity.
Qed.

(** Whatever the client does, the loop over [n] attempts meets a run of
    caught failures and then an answer, an exception it does not catch, or
    the end of the attempts. *)
Lemma retry_loop_cases prompt n :
  forall first (w : world St),
    exists es s_end,
      fails_with chat es (client_state w) prompt DEFAULT_MODEL s_end
      /\ ((List.length es = n
           /\ retry_loop chat (seq first n) prompt w
              = (after_failures w prompt first es s_end, inr None))
          \/ (List.length es < n
              /\ exists s' r,
                   chat s_end prompt DEFAULT_MODEL = (s', inr r)
                   /\ retry_loop chat (seq first n) prompt w
                      = (after_success
                           (after_failures w prompt first es s_end) prompt s',
                         inr (Some (text r))))
          \/ (List.length es < n
              /\ exists s' e,
                   chat s_end prompt DEFAULT_MODEL = (s', inl e)
                   /\ is_Exception e = false
                   /\ retry_loop chat (seq first n) prompt w
                      = (after_success
                           (after_failures w prompt first es s_end) prompt s',
                         inl e))).
Proof.
  induction n as [|n IH]; intros first w.
  - exists [], (client_state w). split; [reflexivity|]. left.
    split; [reflexivity|]. rewrite after_failures_nil. reflexivity.
  - destruct (chat (client_state w) prompt DEFAULT_MODEL) as [s' [e|r]] eqn:Hc.
    + destruct (is_Exception e) eqn:He.
      * destruct (IH (S first) (after_failure w prompt first s' e))
          as (es & s_end & Hes & Hcases).
        exists (e :: es), s_end. split.
        { cbn [fails_with]. exists s'. split; [split; assumption|exact Hes]. }
        cbn [seq]. rewrite (@retry_loop_failure St chat first _ prompt w s' e
                              (conj Hc He)).
        cbn [List.length]. rewrite <- !after_failures_cons with (s' := s').
        destruct Hcases as [[Hl Hr]|[(Hl & s2 & r & Hc2 & Hr)
                                     |(Hl & s2 & e2 & Hc2 & He2 & Hr)]].
        -- left. split; [lia|exact Hr].
        -- right. left. split; [lia|]. exists s2, r. split; assumption.
        -- right. right. split; [lia|]. exists s2, e2. repeat split; assumption.
      * exists [], (client_state w). split; [reflexivity|]. right. right.
        split; [cbn; lia|]. exists s', e. rewrite after_failures_nil.
        repeat split; try assumption.
        cbn [seq]. exact (@retry_loop_uncaught St chat first _ prompt w s' e Hc He).
    + exists [], (client_state w). split; [reflexivity|]. right. left.
      split; [cbn; lia|]. exists s', r. rewrite after_failures_nil.
      split; [assumption|].
      cbn [seq]. exact (@retry_loop_success St chat first _ prompt w s' r Hc).
Qed.

Lemma attempt_warnings_length (es : list exc) :
  forall first, List.length (attempt_warnings first es) = List.length es.
Proof.
  induction es as [|e es IH]; intros first; cbn [attempt_warnings List.length].
  - reflexivity.
  - rewrite IH. reflexivity.
Qed.

(** Past the validation the function ends in one of the three outcomes. *)
Lemma analyze_cases (w : world St) resume_text job_role job_description :
  strip resume_text <> [] ->
  strip job_role <> [] ->
  exists es s_end,
    fails_with chat es (client_state w)
      (build_prompt resume_text job_role job_description) DEFAULT_MODEL s_end
    /\ outcome chat w (build_prompt resume_text job_role job_description)
         es s_end
         (analyze_resume_with_llm chat resume_text job_role job_description w).
Proof.
  intros Hr Hj.
  rewrite (@analyze_valid St chat resume_text job_role job_description w Hr Hj).
  destruct (@retry_loop_cases
              (build_prompt resume_text job_role job_description)
              MAX_RETRIES 0 w)
    as (es & s_end & Hes & [[Hl Hrun]|[(Hl & s' & r & Hc & Hrun)
                                       |(Hl & s' & e & Hc & He & Hrun)]]).
  - exists es, s_end. split; [exact Hes|].
    unfold bind, range. rewrite Hrun. apply Exhausted. exact Hl.
  - exists es, s_end. split; [exact Hes|].
    unfold bind, range. rewrite Hrun. apply Answered; assumption.
  - exists es, s_end. split; [exact Hes|].
    unfold bind, range. rewrite Hrun. apply Interrupted; assumption.
Qed.

End AttemptsFacts.

(** X1. Once the resume and the job role are accepted, and whatever the
    client does, the function ends in one of three ways after a run of
    caught failures: the client answers within the three attempts and its
    text is returned, it raises something [except Exception] does not catch
    and that exception goes through, or the three attempts are used up and
    the generic [Exception] is raised. Each failure of the run has cost one
    call, one warning and one sleep. *)
Theorem analyze_outcomes
    (St : Type) (chat : St -> str -> str -> St * (exc + response))
    (w : world St) (resume_text job_role job_description : str) :
  strip resume_text <> [] ->
  strip job_role <> [] ->
  exists es s_end,
    fails_with chat es (client_state w)
      (build_prompt resume_text job_role job_description) DEFAULT_MODEL s_end
    /\ outcome chat w (build_prompt resume_text job_role job_description)
         es s_end
         (analyze_resume_with_llm chat resume_text job_role job_description w).
Proof.
  intros Hr Hj.
  rewrite (@analyze_valid St chat resume_text job_role job_description w Hr Hj).
  unfold bind, range.
  destruct (@retry_loop_cases St chat
              (build_prompt resume_text job_role job_description)
              MAX_RETRIES 0 w)
    as (es & s_end & Hes & [[Hl Hrun]|[(Hl & s' & r & Hc & Hrun)
                                       |(Hl & s' & e & Hc & He & Hrun)]]);
    exists es, s_end; (split; [exact Hes|]); rewrite Hrun.
  - apply Exhausted. exact Hl.
  - apply Answered; assumption.
  - apply Interrupted; assumption.
Qed.

Lemma analyze_outcomes_witness :
  exists es s_end,
    fails_with interrupted_chat es (client_state (fresh_world 0))
      (build_prompt (lit "Python developer") (lit "Engineer") [])
      DEFAULT_MODEL s_end
    /\ outcome interrupted_chat (fresh_world 0)
         (build_prompt (lit "Python developer") (lit "Engineer") [])
         es s_end
         (analyze_resume_with_llm interrupted_chat
            (lit "Python developer") (lit "Engineer") [] (fresh_world 0)).
Proof.
  apply analyze_outcomes; vm_compute; discriminate.
Defined.

(** X2. Whatever the client does, an accepted request costs between one and
    three calls and at most three sleeps of ten seconds, thirty seconds in
    all; there is one warning per sleep, and a sleep only after a call that
    failed: the calls number as many as the sleeps or one more. *)
Theorem analyze_cost_bounds
    (St : Type) (chat : St -> str -> str -> St * (exc + response))
    (w : world St) (resume_text job_role job_description : str) :
  strip resume_text <> [] ->
  strip job_role <> [] ->
  exists n k,
    1 <= n <= 3 /\ k <= 3 /\ k <= n <= k + 1
    /\ calls (fst (analyze_resume_with_llm chat
                     resume_text job_role job_description w))
       = calls w
         ++ repeat (build_prompt resume_text job_role job_description,
                    DEFAULT_MODEL) n
    /\ sleeps (fst (analyze_resume_with_llm chat
                      resume_text job_role job_description w))
       = sleeps w ++ repeat 10%Z k
    /\ List.length (warnings (fst (analyze_resume_with_llm chat
                                     resume_text job_role job_description w)))
       = List.length (warnings w) + k
    /\ (fold_right Z.add 0 (sleeps (fst (analyze_resume_with_llm chat
                                resume_text job_role job_description w)))
        <= fold_right Z.add 0 (sleeps w) + 30)%Z.
Proof.
  intros Hr Hj.
  destruct (@analyze_cases St chat w resume_text job_role job_description
              Hr Hj) as (es & s_end & _ & Hout).
  pose proof (attempt_warnings_length es) as Hwarn.
  assert (Htotal : forall k, (k <= 3)%nat ->
            (fold_right Z.add 0 (sleeps w ++ repeat RETRY_DELAY k)
             <= fold_right Z.add 0 (sleeps w) + 30)%Z).
  { intros k Hk. rewrite total_app.
    unfold RETRY_DELAY.
    destruct k as [|[|[|[|k]]]]; cbn [repeat fold_right]; lia. }
  destruct Hout as [s' r Hl Hc|s' e Hl Hc He|Hl];
    unfold MAX_RETRIES in Hl;
    cbn [fst after_success after_failures calls sleeps warnings].
  - exists (S (List.length es)), (List.length es).
    rewrite <- app_assoc, <- repeat_cons, length_app, Hwarn.
    repeat split; try lia; auto. apply Htotal. lia.
  - exists (S (List.length es)), (List.length es).
    rewrite <- app_assoc, <- repeat_cons, length_app, Hwarn.
    repeat split; try lia; auto. apply Htotal. lia.
  - exists (List.length es), (List.length es).
    rewrite length_app, Hwarn.
    repeat split; try lia; auto. apply Htotal. lia.
Qed.

Lemma analyze_cost_bounds_witness :
  exists n k,
    1 <= n <= 3 /\ k <= 3 /\ k <= n <= k + 1
    /\ calls (fst (analyze_resume_with_llm flaky_chat
                     (lit "Python developer") (lit "Engineer") []
                     (fresh_world 0)))
       = calls (fresh_world 0)
         ++ repeat (build_prompt (lit "Python developer") (lit "Engineer") [],
                    DEFAULT_MODEL) n
    /\ sleeps (fst (analyze_resume_with_llm flaky_chat
                      (lit "Python developer") (lit "Engineer") []
                      (fresh_world 0)))
       = sleeps (fresh_world 0) ++ repeat 10%Z k
    /\ List.length (warnings (fst (analyze_resume_with_llm flaky_chat
                                     (lit "Python developer") (lit "Engineer")
                                     [] (fresh_world 0))))
       = List.length (warnings (fresh_world 0)) + k
    /\ (fold_right Z.add 0 (sleeps (fst (analyze_resume_with_llm flaky_chat
                                (lit "Python developer") (lit "Engineer") []
                                (fresh_world 0%nat))))
        <= fold_right Z.add 0 (sleeps (fresh_world 0%nat)) + 30)%Z.
Proof.
  apply analyze_cost_bounds; vm_compute; discriminate.
Defined.

Lemma range_split (k : nat) :
  k < MAX_RETRIES ->
  range MAX_RETRIES = seq 0 k ++ k :: seq (S k) (MAX_RETRIES - S k).
Proof.
  unfold range, MAX_RETRIES. intros Hk.
  destruct k as [|[|[|k]]]; [reflexivity|reflexivity|reflexivity|lia].
Qed.

(** X3. An answer is returned as soon as it comes. When the attempts before
    it raised [es] (none, one or two caught exceptions), the function
    returns the text of the answer after [length es + 1] calls, having
    logged one warning and slept ten seconds once per failure: an answer to
    the first call costs no sleep and no warning. *)
Theorem answer_after_failures
    (St : Type) (chat : St -> str -> str -> St * (exc + response))
    (w : world St) (resume_text job_role job_description : str)
    (es : list exc) (s_end s' : St) (r : response) :
  strip resume_text <> [] ->
  strip job_role <> [] ->
  fails_with chat es (client_state w)
    (build_prompt resume_text job_role job_description) DEFAULT_MODEL s_end ->
  List.length es < 3 ->
  chat s_end (build_prompt resume_text job_role job_description) DEFAULT_MODEL
  = (s', inr r) ->
  analyze_resume_with_llm chat resume_text job_role job_description w
  = ({| client_state := s';
        calls := calls w
                 ++ repeat (build_prompt resume_text job_role job_description,
                            DEFAULT_MODEL) (List.length es + 1);
        warnings := warnings w ++ attempt_warnings 0 es;
        sleeps := sleeps w ++ repeat 10%Z (List.length es) |},
     inr (text r)).
Proof.
  intros Hr Hj Hes Hlen Hc.
  rewrite (@analyze_valid St chat resume_text job_role job_description w Hr Hj).
  unfold bind. rewrite (range_split Hlen).
  rewrite (@retry_loop_fails_with St chat es _ 0 _ w s_end Hes).
  rewrite (@retry_loop_success St chat _ _ _
             (after_failures w _ 0 es s_end) s' r Hc).
  unfold ret, after_success, after_failures. cbn [calls warnings sleeps].
  rewrite repeat_app, app_assoc. reflexivity.
Qed.

Lemma answer_after_failures_witness :
  analyze_resume_with_llm ready_chat
    (lit "Python developer") (lit "Engineer") [] (fresh_world tt)
  = ({| client_state := tt;
        calls := calls (fresh_world tt)
                 ++ repeat (build_prompt (lit "Python developer")
                              (lit "Engineer") [],
                            DEFAULT_MODEL) (List.length (@nil exc) + 1);
        warnings := warnings (fresh_world tt) ++ attempt_warnings 0 [];
        sleeps := sleeps (fresh_world tt)
                  ++ repeat 10%Z (List.length (@nil exc)) |},
     inr (text {| text := lit "5. Overall Recommendations: none" |})).
Proof.
  apply (@answer_after_failures unit ready_chat (fresh_world tt)
           (lit "Python developer") (lit "Engineer") [] [] tt tt).
  - vm_compute. discriminate.
  - vm_compute. discriminate.
  - reflexivity.
  - cbn. lia.
  - reflexivity.
Defined.

(** X4. An exception that [except Exception] does not catch, a keyboard
    interrupt for one, is not retried: it leaves the function as it is,
    right after the call that raised it, with no warning and no sleep for
    that call. *)
Theorem uncaught_exception_goes_through
    (St : Type) (chat : St -> str -> str -> St * (exc + response))
    (w : world St) (resume_text job_role job_description : str)
    (es : list exc) (s_end s' : St) (e : exc) :
  strip resume_text <> [] ->
  strip job_role <> [] ->
  fails_with chat es (client_state w)
    (build_prompt resume_text job_role job_description) DEFAULT_MODEL s_end ->
  List.length es < 3 ->
  chat s_end (build_prompt resume_text job_role job_description) DEFAULT_MODEL
  = (s', inl e) ->
  is_Exception e = false ->
  analyze_resume_with_llm chat resume_text job_role job_description w
  = ({| client_state := s';
        calls := calls w
                 ++ repeat (build_prompt resume_text job_role job_description,
                            DEFAULT_MODEL) (List.length es + 1);
        warnings := warnings w ++ attempt_warnings 0 es;
        sleeps := sleeps w ++ repeat 10%Z (List.length es) |},
     inl e).
Proof.
  intros Hr Hj Hes Hlen Hc He.
  rewrite (@analyze_valid St chat resume_text job_role job_description w Hr Hj).
  unfold bind. rewrite (range_split Hlen).
  rewrite (@retry_loop_fails_with St chat es _ 0 _ w s_end Hes).
  rewrite (@retry_loop_uncaught St chat _ _ _
             (after_failures w _ 0 es s_end) s' e Hc He).
  unfold after_success, after_failures. cbn [calls warnings sleeps].
  rewrite repeat_app, app_assoc. reflexivity.
Qed.

Lemma uncaught_exception_goes_through_witness :
  analyze_resume_with_llm interrupted_chat
    (lit "Python developer") (lit "Engineer") [] (fresh_world 0)
  = ({| client_state := 2;
        calls := calls (fresh_world 0)
                 ++ repeat (build_prompt (lit "Python developer")
                              (lit "Engineer") [],
                            DEFAULT_MODEL) (List.length [rate_limited] + 1);
        warnings := warnings (fresh_world 0)
                    ++ attempt_warnings 0 [rate_limited];
        sleeps := sleeps (fresh_world 0)
                  ++ repeat 10%Z (List.length [rate_limited]) |},
     inl keyboard_interrupt).
Proof.
  apply (@uncaught_exception_goes_through nat interrupted_chat (fresh_world 0)
           (lit "Python developer") (lit "Engineer") []
           [rate_limited] 1 2 keyboard_interrupt).
  - vm_compute. discriminate.
  - vm_compute. discriminate.
  - exists 1. split; [split; reflexivity|reflexivity].
  - cbn. lia.
  - reflexivity.
  - reflexivity.
Defined.

(** X5. Each failed attempt is logged with its number, counted from one,
    and the text of its exception. After three failures the warnings are
    the three of them in order, the client is in the state the third call
    left it in, and the exception raised is the generic one. *)
Theorem failures_are_logged
    (St : Type) (chat : St -> str -> str -> St * (exc + response))
    (w : world St) (resume_text job_role job_description : str)
    (s1 s2 s3 : St) (e1 e2 e3 : exc) :
  strip resume_text <> [] ->
  strip job_role <> [] ->
  chat_fails chat (client_state w)
    (build_prompt resume_text job_role job_description) DEFAULT_MODEL s1 e1 ->
  chat_fails chat s1
    (build_prompt resume_text job_role job_description) DEFAULT_MODEL s2 e2 ->
  chat_fails chat s2
    (build_prompt resume_text job_role job_description) DEFAULT_MODEL s3 e3 ->
  analyze_resume_with_llm chat resume_text job_role job_description w
  = ({| client_state := s3;
        calls := calls w
                 ++ repeat (build_prompt resume_text job_role job_description,
                            DEFAULT_MODEL) 3;
        warnings :=
          warnings w
          ++ [lit "Cohere API call failed (attempt 1): " ++ exc_str e1;
              lit "Cohere API call failed (attempt 2): " ++ exc_str e2;
              lit "Cohere API call failed (attempt 3): " ++ exc_str e3];
        sleeps := sleeps w ++ [10; 10; 10]%Z |},
     inl (Raised Exception
            (lit "Failed to analyze resume after multiple attempts.") None)).
Proof.
  intros Hr Hj H1 H2 H3.
  rewrite (@analyze_valid St chat resume_text job_role job_description w Hr Hj).
  unfold bind.
  assert (Hes : fails_with chat [e1; e2; e3] (client_state w)
                  (build_prompt resume_text job_role job_description)
                  DEFAULT_MODEL s3).
  { exists s1. split; [exact H1|]. exists s2. split; [exact H2|].
    exists s3. split; [exact H3|reflexivity]. }
  pose proof (@retry_loop_fails_with St chat [e1; e2; e3] _ 0 [] w s3 Hes) as Hrun.
  cbn [List.length seq app] in Hrun. unfold range, MAX_RETRIES. cbn [seq].
  rewrite Hrun. reflexivity.
Qed.

Lemma failures_are_logged_witness :
  analyze_resume_with_llm failing_chat
    (lit "Python developer") (lit "Engineer") [] (fresh_world tt)
  = ({| client_state := tt;
        calls := calls (fresh_world tt)
                 ++ repeat (build_prompt (lit "Python developer")
                              (lit "Engineer") [],
                            DEFAULT_MODEL) 3;
        warnings :=
          warnings (fresh_world tt)
          ++ [lit "Cohere API call failed (attempt 1): "
              ++ exc_str rate_limited;
              lit "Cohere API call failed (attempt 2): "
              ++ exc_str rate_limited;
              lit "Cohere API call failed (attempt 3): "
              ++ exc_str rate_limited];
        sleeps := sleeps (fresh_world tt) ++ [10; 10; 10]%Z |},
     inl (Raised Exception
            (lit "Failed to analyze resume after multiple attempts.") None)).
Proof.
  apply (@failures_are_logged unit failing_chat (fresh_world tt)
           (lit "Python developer") (lit "Engineer") [] tt tt tt).
  - vm_compute. discriminate.
  - vm_compute. discriminate.
  - split; reflexivity.
  - split; reflexivity.
  - split; reflexivity.
Defined.

Lemma forallb_firstn {A} (f : A -> bool) (n : nat) (l : list A) :
  forallb f l = true -> forallb f (firstn n l) = true.
Proof.
  revert n. induction l as [|a l IH]; intros [|n]; cbn [firstn forallb]; auto.
  rewrite !andb_true_iff. intros [Ha Hl]. auto.
Qed.

(** X6. The resume is validated whole and truncated afterwards. A resume
    that starts with 8000 or more white-space characters and has text after
    them is accepted, and the prompt the client receives embeds nothing but
    white space. *)
Theorem leading_whitespace_hides_resume
    (St : Type) (chat : St -> str -> str -> St * (exc + response))
    (w : world St) (padding rest job_role job_description : str) :
  forallb isspace padding = true ->
  8000 <= List.length padding ->
  strip rest <> [] ->
  strip job_role <> [] ->
  exists n,
    1 <= n <= 3
    /\ calls (fst (analyze_resume_with_llm chat
                     (padding ++ rest) job_role job_description w))
       = calls w
         ++ repeat (prompt_before job_role job_description
                      ++ firstn 8000 padding ++ prompt_sections,
                    DEFAULT_MODEL) n
    /\ strip (firstn 8000 padding) = [].
Proof.
  intros Hpad Hlen Hrest Hj.
  assert (Hr : strip (padding ++ rest) <> []).
  { intros H. apply Hrest. apply strip_blank. apply strip_blank in H.
    rewrite forallb_app in H. apply andb_true_iff in H. tauto. }
  assert (Hp : build_prompt (padding ++ rest) job_role job_description
               = prompt_before job_role job_description
                 ++ firstn 8000 padding ++ prompt_sections).
  { unfold build_prompt, slice_to. rewrite firstn_app.
    replace (8000 - List.length padding) with 0
      by (symmetry; apply Nat.sub_0_le; exact Hlen).
    cbn [firstn]. rewrite app_nil_r. reflexivity. }
  rewrite (@analyze_valid St chat _ job_role job_description w Hr Hj).
  destruct (@retry_loop_calls St chat (range MAX_RETRIES)
              (build_prompt (padding ++ rest) job_role job_description) w)
    as (n & Hcalls & Hle & Hpos).
  exists n. split; [split; [apply Hpos; discriminate|exact Hle]|]. split.
  - rewrite <- Hp. unfold bind.
    destruct (retry_loop chat (range MAX_RETRIES)
                (build_prompt (padding ++ rest) job_role job_description) w)
      as [w' [e|[t|]]]; exact Hcalls.
  - apply strip_blank. apply forallb_firstn. exact Hpad.
Qed.

Lemma leading_whitespace_hides_resume_witness :
  exists n,
    1 <= n <= 3
    /\ calls (fst (analyze_resume_with_llm ready_chat
                     (repeat 32%N 8000 ++ lit "Python developer")
                     (lit "Engineer") [] (fresh_world tt)))
       = calls (fresh_world tt)
         ++ repeat (prompt_before (lit "Engineer") []
                      ++ firstn 8000 (repeat 32%N 8000) ++ prompt_sections,
                    DEFAULT_MODEL) n
    /\ strip (firstn 8000 (repeat 32%N 8000)) = [].
Proof.
  apply leading_whitespace_hides_resume.
  - vm_compute. reflexivity.
  - rewrite repeat_length. apply Nat.le_refl.
  - vm_compute. discriminate.
  - vm_compute. discriminate.
Defined.

(** X7. Only the resume is truncated. The prompt has 394 characters of
    fixed text, the job role and the job description at their full length
    (twelve characters for the placeholder of an empty description) and at
    most 8000 characters of the resume. *)
Theorem prompt_length (resume_text job_role job_description : str) :
  List.length (build_prompt resume_text job_role job_description)
  = 394 + List.length job_role
    + (if truthy job_description then List.length job_description else 12)
    + Nat.min 8000 (List.length resume_text).
Proof.
  unfold build_prompt, prompt_before, slice_to.
  rewrite !length_app, length_firstn.
  change (List.length prompt_intro) with 95.
  change (List.length prompt_description) with 22.
  change (List.length prompt_content) with 26.
  change (List.length prompt_sections) with 251.
  destruct (truthy job_description).
  - lia.
  - change (List.length (lit "Not provided")) with 12. lia.
Qed.

(** X8. The score is a number exactly when the vectorizer finds a token in
    at least one of the two texts; a non-empty text is not enough. *)
Theorem match_score_number_iff
    (str_lower : str -> str) (re_word : char -> bool) (a b : str) :
  (exists x, match_score str_lower re_word a b = inr x)
  <-> (analyze str_lower re_word a <> [] \/ analyze str_lower re_word b <> []).
Proof.
  split.
  - intros [x Hx].
    destruct (analyze str_lower re_word a) as [|t ts] eqn:Ea;
      [|left; discriminate].
    destruct (analyze str_lower re_word b) as [|u us] eqn:Eb;
      [|right; discriminate].
    exfalso. unfold match_score, fit_transform in Hx. cbn [count_vocab] in Hx.
    rewrite Ea, Eb in Hx. discriminate Hx.
  - intros Htok. unfold match_score.
    destruct (@fit_transform_rows str_lower re_word a b Htok)
      as (v0 & r0 & v1 & r1 & _ & _ & ->).
    eexists. reflexivity.
Qed.

(** ** The application *)

Arguments lit : simpl never.

Section AppFacts.

Variable Ext : Type.
Variable Client : Type.
Variable cohere_Client : Ext -> str -> Ext * (exc + Client).
Variable Client_chat : Ext -> Client -> str -> str -> Ext * (exc + response).
Variable extract_text_from_pdf : Ext -> upload -> Ext * (exc + str).
Variable extract_text_from_docx : Ext -> upload -> Ext * (exc + str).
Variable export_feedback_as_pdf : Ext -> str -> Ext * (exc + str).
Variable open_rb : Ext -> str -> Ext * (exc + list N).
Variable str_lower : str -> str.
Variable re_word : char -> bool.

Ltac run :=
  cbv [main main_page configure_api_key analyze_clicked analyze_with
       feedback_report show_match_score bind ret show modify gets external lift
       try_except_Exception client_chat set_ext set_session
       world_of client_state calls warnings sleeps ext session screen
       store_feedback store_resume_text store_analysis_done
       store_api_key_configured store_cohere_client
       ss_feedback ss_resume_text ss_analysis_done ss_api_key_configured
       ss_cohere_client negb truthy_opt].

(** The three ways [configure_api_key] ends. *)
Lemma configure_empty (i : inputs) x s sc cs ws sl :
  in_api_key i = [] ->
  configure_api_key cohere_Client Client_chat i (world_of x s sc cs ws sl)
  = (world_of x s (sc ++ key_widgets) cs ws sl, inr None).
Proof.
  intros Hk. run. rewrite Hk. cbn [truthy]. unfold key_widgets.
  rewrite <- !app_assoc. reflexivity.
Qed.

Lemma configure_accepted (i : inputs) x s sc cs ws sl x1 co x2 r :
  in_api_key i <> [] ->
  cohere_Client x (in_api_key i) = (x1, inr co) ->
  Client_chat x1 co (lit "Hello") (lit "command-r-mini") = (x2, inr r) ->
  configure_api_key cohere_Client Client_chat i (world_of x s sc cs ws sl)
  = (world_of x2
       {| ss_feedback := ss_feedback s;
          ss_resume_text := ss_resume_text s;
          ss_analysis_done := ss_analysis_done s;
          ss_api_key_configured := true;
          ss_cohere_client := Some co |}
       (sc ++ key_widgets
           ++ [ui "st.sidebar.success" ([9989%N] ++ lit " API key validated!")])
       (cs ++ [validation_call]) ws sl,
     inr (Some (in_api_key i))).
Proof.
  intros Hk Hc Hchat. run.
  destruct (in_api_key i) as [|c k] eqn:Ek; [congruence|]. cbn [truthy].
  rewrite Hc. cbv [chat_with ext]. rewrite Hchat. run. unfold key_widgets, validation_call.
  rewrite <- !app_assoc. reflexivity.
Qed.

Lemma configure_rejected (i : inputs) x s sc cs ws sl x1 co x2 e :
  in_api_key i <> [] ->
  cohere_Client x (in_api_key i) = (x1, inr co) ->
  Client_chat x1 co (lit "Hello") (lit "command-r-mini") = (x2, inl e) ->
  is_Exception e = true ->
  configure_api_key cohere_Client Client_chat i (world_of x s sc cs ws sl)
  = (world_of x2
       {| ss_feedback := ss_feedback s;
          ss_resume_text := ss_resume_text s;
          ss_analysis_done := ss_analysis_done s;
          ss_api_key_configured := false;
          ss_cohere_client := ss_cohere_client s |}
       (sc ++ key_widgets
           ++ [ui "st.sidebar.error"
                 ([10060%N] ++ lit " Error validating API key: " ++ exc_str e)])
       (cs ++ [validation_call]) ws sl,
     inr None).
Proof.
  intros Hk Hc Hchat He. run.
  destruct (in_api_key i) as [|c k] eqn:Ek; [congruence|]. cbn [truthy].
  rewrite Hc. cbv [chat_with ext]. rewrite Hchat. run. rewrite He. unfold key_widgets, validation_call.
  rewrite <- !app_assoc. reflexivity.
Qed.

Ltac screens :=
  unfold key_widgets, page_widgets, validation_call;
  rewrite <- ?app_assoc; cbn [app]; reflexivity.

(** With a key the service accepts, [main] goes on to the page. *)
Lemma main_validated (i : inputs) x s sc cs ws sl x1 co x2 r :
  in_api_key i <> [] ->
  cohere_Client x (in_api_key i) = (x1, inr co) ->
  Client_chat x1 co (lit "Hello") (lit "command-r-mini") = (x2, inr r) ->
  main cohere_Client Client_chat extract_text_from_pdf extract_text_from_docx
    export_feedback_as_pdf open_rb str_lower re_word i
    (world_of x s sc cs ws sl)
  = main_page Client_chat extract_text_from_pdf extract_text_from_docx
      export_feedback_as_pdf open_rb str_lower re_word i
      (world_of x2
         {| ss_feedback := ss_feedback s;
            ss_resume_text := ss_resume_text s;
            ss_analysis_done := ss_analysis_done s;
            ss_api_key_configured := true;
            ss_cohere_client := Some co |}
         (sc ++ [ui "st.set_page_config" (lit "Resume Sudharak")]
             ++ key_widgets
             ++ [ui "st.sidebar.success" ([9989%N] ++ lit " API key validated!")])
         (cs ++ [validation_call]) ws sl).
Proof.
  intros Hk Hc Hchat. unfold main.
  unfold bind at 1. unfold show at 1. unfold modify at 1.
  cbn [client_state world_of calls warnings sleeps ext session screen fst snd].
  unfold bind at 1.
  change {| client_state :=
              {| ext := x; session := s;
                 screen := sc ++ [ui "st.set_page_config" (lit "Resume Sudharak")] |};
            calls := cs; warnings := ws; sleeps := sl |}
    with (world_of x s (sc ++ [ui "st.set_page_config" (lit "Resume Sudharak")])
            cs ws sl).
  rewrite (@configure_accepted i x s _ cs ws sl x1 co x2 r Hk Hc Hchat).
  unfold bind at 1. unfold gets at 1.
  cbn [client_state world_of session ss_api_key_configured negb].
  rewrite <- !app_assoc. reflexivity.
Qed.

(** What the retriever does with the client of the session. *)
Lemma analyze_blank_role (St : Type)
    (chat : St -> str -> str -> St * (exc + response)) (w : world St)
    resume_text job_role job_description :
  strip resume_text <> [] ->
  strip job_role = [] ->
  analyze_resume_with_llm chat resume_text job_role job_description w
  = (w, inl (Raised ValueError (lit "Job role cannot be empty") None)).
Proof.
  intros Hr Hj. unfold analyze_resume_with_llm.
  destruct (strip resume_text); [congruence|]. rewrite Hj. reflexivity.
Qed.

Lemma analyze_first_answer (St : Type)
    (chat : St -> str -> str -> St * (exc + response)) (w : world St)
    resume_text job_role job_description s' r :
  strip resume_text <> [] ->
  strip job_role <> [] ->
  chat (client_state w)
    (build_prompt resume_text job_role job_description) DEFAULT_MODEL
  = (s', inr r) ->
  analyze_resume_with_llm chat resume_text job_role job_description w
  = (after_success w (build_prompt resume_text job_role job_description) s',
     inr (text r)).
Proof.
  intros Hr Hj Hc.
  rewrite (@analyze_valid St chat resume_text job_role job_description w Hr Hj).
  unfold bind, range, MAX_RETRIES. cbn [seq].
  rewrite (@retry_loop_success St chat 0 _ _ w s' r Hc). reflexivity.
Qed.

Lemma analyze_three_failures (St : Type)
    (chat : St -> str -> str -> St * (exc + response)) (w : world St)
    resume_text job_role job_description s1 s2 s3 e1 e2 e3 :
  strip resume_text <> [] ->
  strip job_role <> [] ->
  chat_fails chat (client_state w)
    (build_prompt resume_text job_role job_description) DEFAULT_MODEL s1 e1 ->
  chat_fails chat s1
    (build_prompt resume_text job_role job_description) DEFAULT_MODEL s2 e2 ->
  chat_fails chat s2
    (build_prompt resume_text job_role job_description) DEFAULT_MODEL s3 e3 ->
  analyze_resume_with_llm chat resume_text job_role job_description w
  = (after_failures w (build_prompt resume_text job_role job_description) 0
       [e1; e2; e3] s3,
     inl (Raised Exception
            (lit "Failed to analyze resume after multiple attempts.") None)).
Proof.
  intros Hr Hj H1 H2 H3.
  rewrite (@analyze_valid St chat resume_text job_role job_description w Hr Hj).
  unfold bind.
  assert (Hes : fails_with chat [e1; e2; e3] (client_state w)
                  (build_prompt resume_text job_role job_description)
                  DEFAULT_MODEL s3).
  { exists s1. split; [exact H1|]. exists s2. split; [exact H2|].
    exists s3. split; [exact H3|reflexivity]. }
  pose proof (@retry_loop_fails_with St chat [e1; e2; e3] _ 0 [] w s3 Hes)
    as Hrun.
  cbn [List.length seq app] in Hrun. unfold range, MAX_RETRIES. cbn [seq].
  rewrite Hrun. reflexivity.
Qed.

Lemma chat_with_client (co : Client) x s sc message model x' r :
  Client_chat x co message model = (x', r) ->
  chat_with Client_chat (Some co) {| ext := x; session := s; screen := sc |}
    message model
  = ({| ext := x'; session := s; screen := sc |}, r).
Proof. intros H. cbv [chat_with ext set_ext session screen]. rewrite H. reflexivity. Qed.


Lemma truthy_true (s : str) : s <> [] -> truthy s = true.
Proof. destruct s; [congruence|reflexivity]. Qed.

Ltac enter_page Hk Hc Hchat Hfile Hrole Hclick Hex Htext :=
  rewrite (@main_validated _ _ _ _ _ _ _ _ _ _ _ Hk Hc Hchat);
  run; rewrite Hfile; rewrite (truthy_true Hrole); rewrite Hclick;
  match goal with
  | |- context [str_eqb ?t ?p] => destruct (str_eqb t p)
  end;
  rewrite Hex; rewrite (truthy_true Htext); cbn [negb].

(** X11. A job role made of white space passes the test of [main], which
    only asks for a non-empty text, and is refused by the retriever: the
    page shows the error of the job role, the service is not called and
    nothing sleeps. The extracted resume has by then been stored in the
    session; the feedback and the flag of a finished analysis are as they
    were. *)
Theorem main_blank_job_role (i : inputs) x s sc cs ws sl x1 co x2 r
    uploaded_file x3 resume_text :
  in_api_key i <> [] ->
  cohere_Client x (in_api_key i) = (x1, inr co) ->
  Client_chat x1 co (lit "Hello") (lit "command-r-mini") = (x2, inr r) ->
  in_uploaded_file i = Some uploaded_file ->
  in_job_role i <> [] ->
  in_analyze i = true ->
  (if str_eqb (upload_type uploaded_file) (lit "application/pdf")
   then extract_text_from_pdf x2 uploaded_file
   else extract_text_from_docx x2 uploaded_file) = (x3, inr resume_text) ->
  strip resume_text <> [] ->
  strip (in_job_role i) = [] ->
  main cohere_Client Client_chat extract_text_from_pdf extract_text_from_docx
    export_feedback_as_pdf open_rb str_lower re_word i
    (world_of x s sc cs ws sl)
  = (world_of x3
       {| ss_feedback := ss_feedback s;
          ss_resume_text := Some resume_text;
          ss_analysis_done := ss_analysis_done s;
          ss_api_key_configured := true;
          ss_cohere_client := Some co |}
       (sc ++ [ui "st.set_page_config" (lit "Resume Sudharak")]
           ++ key_widgets
           ++ [ui "st.sidebar.success" ([9989%N] ++ lit " API key validated!")]
           ++ page_widgets
           ++ [ui "st.button" ([128269%N] ++ lit " Analyze Resume");
               ui "st.spinner" (lit "Extracting text from resume...");
               ui "st.spinner" (lit "Analyzing resume with AI...");
               ui "st.error"
                 (lit "Error analyzing resume: "
                  ++ lit "Job role cannot be empty")])
       (cs ++ [validation_call]) ws sl,
     inr tt).
Proof.
  intros Hk Hc Hchat Hfile Hrole Hclick Hex Htext Hblank.
  enter_page Hk Hc Hchat Hfile Hrole Hclick Hex Htext;
    rewrite (@analyze_blank_role _ _ _ _ _ _ Htext Hblank);
    cbn [is_Exception exc_cls exc_str]; run; cbn [exc_str]; screens.
Qed.

(** X10. When the text extracted from the upload is blank, [main] shows
    that no text could be extracted and returns: the retriever is not
    called, the session keeps its resume, feedback and flags, and the report
    of an earlier analysis is not shown in this run. *)
Theorem main_blank_resume (i : inputs) x s sc cs ws sl x1 co x2 r
    uploaded_file x3 resume_text :
  in_api_key i <> [] ->
  cohere_Client x (in_api_key i) = (x1, inr co) ->
  Client_chat x1 co (lit "Hello") (lit "command-r-mini") = (x2, inr r) ->
  in_uploaded_file i = Some uploaded_file ->
  in_job_role i <> [] ->
  in_analyze i = true ->
  (if str_eqb (upload_type uploaded_file) (lit "application/pdf")
   then extract_text_from_pdf x2 uploaded_file
   else extract_text_from_docx x2 uploaded_file) = (x3, inr resume_text) ->
  strip resume_text = [] ->
  main cohere_Client Client_chat extract_text_from_pdf extract_text_from_docx
    export_feedback_as_pdf open_rb str_lower re_word i
    (world_of x s sc cs ws sl)
  = (world_of x3
       {| ss_feedback := ss_feedback s;
          ss_resume_text := ss_resume_text s;
          ss_analysis_done := ss_analysis_done s;
          ss_api_key_configured := true;
          ss_cohere_client := Some co |}
       (sc ++ [ui "st.set_page_config" (lit "Resume Sudharak")]
           ++ key_widgets
           ++ [ui "st.sidebar.success" ([9989%N] ++ lit " API key validated!")]
           ++ page_widgets
           ++ [ui "st.button" ([128269%N] ++ lit " Analyze Resume");
               ui "st.spinner" (lit "Extracting text from resume...");
               ui "st.error" (lit "No text could be extracted from the resume.")])
       (cs ++ [validation_call]) ws sl,
     inr tt).
Proof.
  intros Hk Hc Hchat Hfile Hrole Hclick Hex Hblank.
  rewrite (@main_validated i x s sc cs ws sl x1 co x2 r Hk Hc Hchat).
  run. rewrite Hfile.
  destruct (in_job_role i) as [|c role] eqn:Er; [congruence|]. cbn [truthy].
  rewrite Hclick.
  destruct (str_eqb (upload_type uploaded_file) (lit "application/pdf"));
    rewrite Hex; rewrite Hblank; cbn [truthy]; screens.
Qed.

(** X12. When the three attempts of the retriever fail, [main] shows the
    generic error, which names none of the three failures, and returns. The
    run has cost the validation call, three calls of the retriever and
    thirty seconds of sleep; the feedback and the flag of a finished
    analysis are as they were. *)
Theorem main_retries_exhausted (i : inputs) x s sc cs ws sl x1 co x2 r
    uploaded_file x3 resume_text x4 x5 x6 e1 e2 e3 :
  in_api_key i <> [] ->
  cohere_Client x (in_api_key i) = (x1, inr co) ->
  Client_chat x1 co (lit "Hello") (lit "command-r-mini") = (x2, inr r) ->
  in_uploaded_file i = Some uploaded_file ->
  in_job_role i <> [] ->
  in_analyze i = true ->
  (if str_eqb (upload_type uploaded_file) (lit "application/pdf")
   then extract_text_from_pdf x2 uploaded_file
   else extract_text_from_docx x2 uploaded_file) = (x3, inr resume_text) ->
  strip resume_text <> [] ->
  strip (in_job_role i) <> [] ->
  Client_chat x3 co (build_prompt resume_text (in_job_role i) (in_job_description i)) DEFAULT_MODEL = (x4, inl e1) ->
  is_Exception e1 = true ->
  Client_chat x4 co (build_prompt resume_text (in_job_role i) (in_job_description i)) DEFAULT_MODEL = (x5, inl e2) ->
  is_Exception e2 = true ->
  Client_chat x5 co (build_prompt resume_text (in_job_role i) (in_job_description i)) DEFAULT_MODEL = (x6, inl e3) ->
  is_Exception e3 = true ->
  main cohere_Client Client_chat extract_text_from_pdf extract_text_from_docx
    export_feedback_as_pdf open_rb str_lower re_word i
    (world_of x s sc cs ws sl)
  = (world_of x6
       {| ss_feedback := ss_feedback s;
          ss_resume_text := Some resume_text;
          ss_analysis_done := ss_analysis_done s;
          ss_api_key_configured := true;
          ss_cohere_client := Some co |}
       (sc ++ [ui "st.set_page_config" (lit "Resume Sudharak")]
           ++ key_widgets
           ++ [ui "st.sidebar.success" ([9989%N] ++ lit " API key validated!")]
           ++ page_widgets
           ++ [ui "st.button" ([128269%N] ++ lit " Analyze Resume");
               ui "st.spinner" (lit "Extracting text from resume...");
               ui "st.spinner" (lit "Analyzing resume with AI...");
               ui "st.error"
                 (lit "Error analyzing resume: "
                  ++ lit "Failed to analyze resume after multiple attempts.")])
       (cs ++ [validation_call]
           ++ repeat ((build_prompt resume_text (in_job_role i) (in_job_description i)), DEFAULT_MODEL) 3)
       (ws ++ attempt_warnings 0 [e1; e2; e3])
       (sl ++ [10; 10; 10]%Z),
     inr tt).
Proof.
  intros Hk Hc Hchat Hfile Hrole Hclick Hex Htext Hjob H1 He1 H2 He2 H3 He3.
  enter_page Hk Hc Hchat Hfile Hrole Hclick Hex Htext;
    (erewrite (@analyze_three_failures _ _ _ _ _ _ _ _ _ e1 e2 e3 Htext Hjob);
     [ | split; [apply chat_with_client; exact H1|exact He1]
       | split; [apply chat_with_client; exact H2|exact He2]
       | split; [apply chat_with_client; exact H3|exact He3] ]);
    cbv [after_failures]; cbn [is_Exception exc_cls]; run; cbn [exc_str];
    cbn [List.length repeat]; unfold RETRY_DELAY; screens.
Qed.


(** X14. When no job description is given and the answer of the service
    is the empty text, [main] still announces that the analysis is complete
    and stores the empty feedback, and then, the feedback being empty and
    the analysis done, asks the user to upload a resume and enter a job
    role; no report is shown. *)
Theorem main_empty_answer (i : inputs) x s sc cs ws sl x1 co
    x2 r uploaded_file x3 resume_text x4 answer :
  in_api_key i <> [] ->
  cohere_Client x (in_api_key i) = (x1, inr co) ->
  Client_chat x1 co (lit "Hello") (lit "command-r-mini") = (x2, inr r) ->
  in_uploaded_file i = Some uploaded_file ->
  in_job_role i <> [] ->
  in_analyze i = true ->
  (if str_eqb (upload_type uploaded_file) (lit "application/pdf")
   then extract_text_from_pdf x2 uploaded_file
   else extract_text_from_docx x2 uploaded_file) = (x3, inr resume_text) ->
  strip resume_text <> [] ->
  strip (in_job_role i) <> [] ->
  Client_chat x3 co (build_prompt resume_text (in_job_role i) (in_job_description i)) DEFAULT_MODEL = (x4, inr answer) ->
  in_job_description i = [] ->
  text answer = [] ->
  main cohere_Client Client_chat extract_text_from_pdf extract_text_from_docx
    export_feedback_as_pdf open_rb str_lower re_word i
    (world_of x s sc cs ws sl)
  = (world_of x4
       {| ss_feedback := Some [];
          ss_resume_text := Some resume_text;
          ss_analysis_done := true;
          ss_api_key_configured := true;
          ss_cohere_client := Some co |}
       (sc ++ [ui "st.set_page_config" (lit "Resume Sudharak")]
           ++ key_widgets
           ++ [ui "st.sidebar.success" ([9989%N] ++ lit " API key validated!")]
           ++ page_widgets
           ++ [ui "st.button" ([128269%N] ++ lit " Analyze Resume");
               ui "st.spinner" (lit "Extracting text from resume...");
               ui "st.spinner" (lit "Analyzing resume with AI...");
               ui "st.success" (lit "Analysis complete!");
               ui "st.info"
                 (lit "Upload a resume and enter a job role to get started.")])
       (cs ++ [validation_call;
               ((build_prompt resume_text (in_job_role i) (in_job_description i)), DEFAULT_MODEL)])
       ws sl,
     inr tt).
Proof.
  intros Hk Hc Hchat Hfile Hrole Hclick Hex Htext Hjob H1 Hjd Hans.
  enter_page Hk Hc Hchat Hfile Hrole Hclick Hex Htext;
    (erewrite (@analyze_first_answer _ _ _ _ _ _ _ answer Htext Hjob);
     [ | apply chat_with_client; exact H1 ]);
    cbv [after_success]; run; rewrite Hjd; cbn [truthy]; run;
    rewrite Hans; cbn [truthy]; run; screens.
Qed.

Lemma match_score_no_token (a b : str) :
  analyze str_lower re_word a = [] ->
  analyze str_lower re_word b = [] ->
  match_score str_lower re_word a b = inl empty_vocabulary.
Proof.
  intros Ha Hb. unfold match_score, fit_transform. cbn [count_vocab].
  rewrite Ha, Hb. reflexivity.
Qed.

(** X15. The call of [match_score] in [main] is outside every [try]. With a
    job description that is not empty, when the vectorizer finds no token in
    the resume nor in the description, [main] itself raises the
    [ValueError] of the empty vocabulary, after the feedback has been stored
    and the analysis announced as complete and before the report is
    shown. *)
Theorem main_raises_on_empty_vocabulary (i : inputs) x s sc cs ws sl x1 co
    x2 r uploaded_file x3 resume_text x4 answer :
  in_api_key i <> [] ->
  cohere_Client x (in_api_key i) = (x1, inr co) ->
  Client_chat x1 co (lit "Hello") (lit "command-r-mini") = (x2, inr r) ->
  in_uploaded_file i = Some uploaded_file ->
  in_job_role i <> [] ->
  in_analyze i = true ->
  (if str_eqb (upload_type uploaded_file) (lit "application/pdf")
   then extract_text_from_pdf x2 uploaded_file
   else extract_text_from_docx x2 uploaded_file) = (x3, inr resume_text) ->
  strip resume_text <> [] ->
  strip (in_job_role i) <> [] ->
  Client_chat x3 co (build_prompt resume_text (in_job_role i) (in_job_description i)) DEFAULT_MODEL = (x4, inr answer) ->
  in_job_description i <> [] ->
  analyze str_lower re_word resume_text = [] ->
  analyze str_lower re_word (in_job_description i) = [] ->
  main cohere_Client Client_chat extract_text_from_pdf extract_text_from_docx
    export_feedback_as_pdf open_rb str_lower re_word i
    (world_of x s sc cs ws sl)
  = (world_of x4
       {| ss_feedback := Some (text answer);
          ss_resume_text := Some resume_text;
          ss_analysis_done := true;
          ss_api_key_configured := true;
          ss_cohere_client := Some co |}
       (sc ++ [ui "st.set_page_config" (lit "Resume Sudharak")]
           ++ key_widgets
           ++ [ui "st.sidebar.success" ([9989%N] ++ lit " API key validated!")]
           ++ page_widgets
           ++ [ui "st.button" ([128269%N] ++ lit " Analyze Resume");
               ui "st.spinner" (lit "Extracting text from resume...");
               ui "st.spinner" (lit "Analyzing resume with AI...");
               ui "st.success" (lit "Analysis complete!")])
       (cs ++ [validation_call;
               ((build_prompt resume_text (in_job_role i) (in_job_description i)), DEFAULT_MODEL)])
       ws sl,
     inl empty_vocabulary).
Proof.
  intros Hk Hc Hchat Hfile Hrole Hclick Hex Htext Hjob H1 Hjd Ha Hb.
  enter_page Hk Hc Hchat Hfile Hrole Hclick Hex Htext;
    (erewrite (@analyze_first_answer _ _ _ _ _ _ _ answer Htext Hjob);
     [ | apply chat_with_client; exact H1 ]);
    cbv [after_success]; run; rewrite (truthy_true Hjd); run;
    rewrite (match_score_no_token _ _ Ha Hb); screens.
Qed.

(** X16. The whole run with a job description: when the retriever gets an
    answer and [match_score] a score, [main] stores the feedback, shows
    the score as a metric, a progress bar of the score over 100, a gauge
    and a line of the sidebar, then the fixed chart of seven matched and
    three missing skills, and last the report. *)
Theorem main_feedback_and_score (i : inputs) x s sc cs ws sl x1 co
    x2 r uploaded_file x3 resume_text x4 answer score :
  in_api_key i <> [] ->
  cohere_Client x (in_api_key i) = (x1, inr co) ->
  Client_chat x1 co (lit "Hello") (lit "command-r-mini") = (x2, inr r) ->
  in_uploaded_file i = Some uploaded_file ->
  in_job_role i <> [] ->
  in_analyze i = true ->
  (if str_eqb (upload_type uploaded_file) (lit "application/pdf")
   then extract_text_from_pdf x2 uploaded_file
   else extract_text_from_docx x2 uploaded_file) = (x3, inr resume_text) ->
  strip resume_text <> [] ->
  strip (in_job_role i) <> [] ->
  Client_chat x3 co (build_prompt resume_text (in_job_role i) (in_job_description i)) DEFAULT_MODEL = (x4, inr answer) ->
  in_job_description i <> [] ->
  match_score str_lower re_word resume_text (in_job_description i)
  = inr score ->
  text answer <> [] ->
  in_download i = false ->
  main cohere_Client Client_chat extract_text_from_pdf extract_text_from_docx
    export_feedback_as_pdf open_rb str_lower re_word i
    (world_of x s sc cs ws sl)
  = (world_of x4
       {| ss_feedback := Some (text answer);
          ss_resume_text := Some resume_text;
          ss_analysis_done := true;
          ss_api_key_configured := true;
          ss_cohere_client := Some co |}
       (sc ++ [ui "st.set_page_config" (lit "Resume Sudharak")]
           ++ key_widgets
           ++ [ui "st.sidebar.success" ([9989%N] ++ lit " API key validated!")]
           ++ page_widgets
           ++ [ui "st.button" ([128269%N] ++ lit " Analyze Resume");
               ui "st.spinner" (lit "Extracting text from resume...");
               ui "st.spinner" (lit "Analyzing resume with AI...");
               ui "st.success" (lit "Analysis complete!");
               {| ui_fn := lit "st.metric";
                  ui_args := [Text (lit "Match Score"); Number score;
                              Text (lit "%")] |};
               {| ui_fn := lit "st.progress";
                  ui_args := [Number (f64_div score (f64_of_Z 100))] |};
               {| ui_fn := lit "st.plotly_chart";
                  ui_args := [Text (lit "gauge+number"); Number score;
                              Text (lit "Resume Match Score");
                              Count 0; Count 100] |};
               ui "st.sidebar.markdown"
                 (lit "### " ++ [128269%N] ++ lit " Quick Summary");
               ui "st.sidebar.markdown" (lit "**Job Role:** " ++ in_job_role i);
               ui "st.sidebar.markdown"
                 (lit "**Tone Preference:** " ++ in_persona i);
               {| ui_fn := lit "st.sidebar.markdown";
                  ui_args := [Text (lit "**Match Score:** "); Number score;
                              Text (lit "%")] |};
               ui "st.subheader" ([129504%N] ++ lit " Skill Coverage");
               {| ui_fn := lit "st.pyplot";
                  ui_args := [Count 7; Count 3; Text (lit "Matched");
                              Text (lit "Missing"); Text (lit "%1.1f%%");
                              Text (lit "#4CAF50"); Text (lit "#F44336");
                              Text (lit "Skill Coverage")] |};
               ui "st.subheader" ([128203%N] ++ lit " Feedback Report");
               ui "st.expander" (lit "View Detailed Feedback");
               ui "st.markdown" (text answer);
               ui "st.button" ([128229%N] ++ lit " Download Feedback as PDF")])
       (cs ++ [validation_call;
               ((build_prompt resume_text (in_job_role i) (in_job_description i)), DEFAULT_MODEL)])
       ws sl,
     inr tt).
Proof.
  intros Hk Hc Hchat Hfile Hrole Hclick Hex Htext Hjob H1 Hjd Hscore Hans Hdl.
  enter_page Hk Hc Hchat Hfile Hrole Hclick Hex Htext;
    (erewrite (@analyze_first_answer _ _ _ _ _ _ _ answer Htext Hjob);
     [ | apply chat_with_client; exact H1 ]);
    cbv [after_success]; run; rewrite (truthy_true Hjd); run;
    rewrite Hscore; run; rewrite (truthy_true Hans); rewrite Hdl; run; screens.
Qed.

End AppFacts.

(** X9. With nothing in the key field and a session that is not
    configured, [main] shows the sidebar and the request for a key and
    stops there: nothing is sent to the service, nothing is read from the
    upload and the session is left as it was. *)
Theorem main_without_key
    (Ext Client : Type)
    (cohere_Client : Ext -> str -> Ext * (exc + Client))
    (Client_chat : Ext -> Client -> str -> str -> Ext * (exc + response))
    (extract_text_from_pdf extract_text_from_docx
       : Ext -> upload -> Ext * (exc + str))
    (export_feedback_as_pdf : Ext -> str -> Ext * (exc + str))
    (open_rb : Ext -> str -> Ext * (exc + list N))
    (str_lower : str -> str) (re_word : char -> bool)
    (i : inputs) (x : Ext) (s : session_state Client) (sc : list ui_call)
    (cs : list (str * str)) (ws : list str) (sl : list Z) :
  in_api_key i = [] ->
  ss_api_key_configured s = false ->
  main cohere_Client Client_chat extract_text_from_pdf extract_text_from_docx
    export_feedback_as_pdf open_rb str_lower re_word i
    (world_of x s sc cs ws sl)
  = (world_of x s
       (sc ++ [ui "st.set_page_config" (lit "Resume Sudharak")]
           ++ key_widgets
           ++ [ui "st.warning"
                 (lit "Please enter your Cohere API key in the sidebar to get started.")])
       cs ws sl,
     inr tt).
Proof.
  intros Hk Hs.
  cbv [main configure_api_key bind ret show modify gets
       world_of client_state calls warnings sleeps ext session screen].
  rewrite Hk. cbn [truthy]. cbv [ret]. rewrite Hs. cbn [negb].
  unfold key_widgets. rewrite <- ?app_assoc. cbn [app]. reflexivity.
Qed.

Lemma main_without_key_witness :
  main demo_Client demo_chat demo_extract demo_extract demo_export demo_open
    lower_ascii word_ascii
    (demo_inputs "" "Engineer" "" "Python developer" true)
    (world_of 0 (new_session str) [] [] [] [])
  = (world_of 0 (new_session str)
       ([] ++ [ui "st.set_page_config" (lit "Resume Sudharak")]
           ++ key_widgets
           ++ [ui "st.warning"
                 (lit "Please enter your Cohere API key in the sidebar to get started.")])
       [] [] [],
     inr tt).
Proof.
  apply main_without_key; reflexivity.
Defined.

(** ** What a run leaves alone *)

Section AppFrame.

Variable Ext : Type.
Variable Client : Type.
Variable cohere_Client : Ext -> str -> Ext * (exc + Client).
Variable Client_chat : Ext -> Client -> str -> str -> Ext * (exc + response).
Variable extract_text_from_pdf : Ext -> upload -> Ext * (exc + str).
Variable extract_text_from_docx : Ext -> upload -> Ext * (exc + str).
Variable export_feedback_as_pdf : Ext -> str -> Ext * (exc + str).
Variable open_rb : Ext -> str -> Ext * (exc + list N).
Variable str_lower : str -> str.
Variable re_word : char -> bool.

Section Combinators.

Variable R : world (app_state Ext Client) -> world (app_state Ext Client) -> Prop.
Hypothesis R_refl : forall w, R w w.
Hypothesis R_trans : forall a b c, R a b -> R b c -> R a c.

Lemma keeps_ret {A} (a : A) : keeps R (ret a).
Proof. intros w. apply R_refl. Qed.

Lemma keeps_raise {A} cls msg : keeps R (@raise_ _ A cls msg).
Proof. intros w. apply R_refl. Qed.

Lemma keeps_gets {A} (f : app_state Ext Client -> A) : keeps R (gets f).
Proof. intros w. apply R_refl. Qed.

Lemma keeps_lift {A} (r : exc + A) : keeps R (lift r).
Proof. intros w. apply R_refl. Qed.

Lemma keeps_bind {A B} (c : App Ext Client A) (k : A -> App Ext Client B) :
  keeps R c -> (forall a, keeps R (k a)) -> keeps R (bind c k).
Proof.
  intros Hc Hk w. unfold bind. specialize (Hc w).
  destruct (c w) as [w' [e|a]]; cbn [fst] in *; [exact Hc|].
  exact (R_trans Hc (Hk a w')).
Qed.

Lemma keeps_try {A} (body : App Ext Client A) (handler : exc -> App Ext Client A) :
  keeps R body -> (forall e, keeps R (handler e)) ->
  keeps R (try_except_Exception body handler).
Proof.
  intros Hb Hh w. unfold try_except_Exception. specialize (Hb w).
  destruct (body w) as [w' [e|a]]; cbn [fst] in *; [|exact Hb].
  destruct (is_Exception e); [|exact Hb].
  exact (R_trans Hb (Hh e w')).
Qed.

End Combinators.

Lemma quiet_refl (w : world (app_state Ext Client)) : quiet w w.
Proof. repeat split. Qed.

Lemma quiet_trans (a b c : world (app_state Ext Client)) :
  quiet a b -> quiet b c -> quiet a c.
Proof.
  unfold quiet. intros (H1 & H2 & H3 & H4) (G1 & G2 & G3 & G4).
  repeat split; congruence.
Qed.

Lemma same_key_refl (w : world (app_state Ext Client)) : same_key w w.
Proof. split; reflexivity. Qed.

Lemma same_key_trans (a b c : world (app_state Ext Client)) :
  same_key a b -> same_key b c -> same_key a c.
Proof. unfold same_key. intros [H1 H2] [G1 G2]. split; congruence. Qed.

Lemma quiet_same_key (w w' : world (app_state Ext Client)) :
  quiet w w' -> same_key w w'.
Proof. unfold quiet, same_key. intros (H & _). rewrite H. split; reflexivity. Qed.

Lemma quiet_show (c : ui_call) : keeps (@quiet Ext Client) (@show Ext Client c).
Proof. intros w. repeat split. Qed.

Lemma quiet_external {A} (op : Ext -> Ext * (exc + A)) :
  keeps (@quiet Ext Client) (@external Ext Client A op).
Proof.
  intros w. unfold external. destruct (op (ext (client_state w))) as [x r].
  repeat split.
Qed.

Lemma same_key_show (c : ui_call) : keeps (@same_key Ext Client) (@show Ext Client c).
Proof. intros w. apply quiet_same_key. apply quiet_show. Qed.

Lemma same_key_external {A} (op : Ext -> Ext * (exc + A)) :
  keeps (@same_key Ext Client) (@external Ext Client A op).
Proof. intros w. apply quiet_same_key. apply quiet_external. Qed.

Lemma same_key_feedback v :
  keeps (@same_key Ext Client) (modify (set_session (@store_feedback Client v)) : App Ext Client unit).
Proof. intros w. split; reflexivity. Qed.

Lemma same_key_resume_text v :
  keeps (@same_key Ext Client) (modify (set_session (@store_resume_text Client v)) : App Ext Client unit).
Proof. intros w. split; reflexivity. Qed.

Lemma same_key_analysis_done v :
  keeps (@same_key Ext Client) (modify (set_session (@store_analysis_done Client v)) : App Ext Client unit).
Proof. intros w. split; reflexivity. Qed.

Lemma same_key_client_chat co message model :
  keeps (@same_key Ext Client) (client_chat (chat_with Client_chat co) message model).
Proof.
  intros w. unfold client_chat, chat_with. destruct co as [c|].
  - destruct (Client_chat (ext (client_state w)) c message model) as [x r].
    split; reflexivity.
  - split; reflexivity.
Qed.

Lemma same_key_logger_warning msg :
  keeps (@same_key Ext Client) (logger_warning msg : App Ext Client unit).
Proof. intros w. split; reflexivity. Qed.

Lemma same_key_time_sleep d :
  keeps (@same_key Ext Client) (time_sleep d : App Ext Client unit).
Proof. intros w. split; reflexivity. Qed.

Ltac frame R_refl R_trans prims :=
  repeat match goal with
  | |- keeps _ (ret _) => apply (@keeps_ret _ R_refl)
  | |- keeps _ (raise_ _ _) => apply (@keeps_raise _ R_refl)
  | |- keeps _ (gets _) => apply (@keeps_gets _ R_refl)
  | |- keeps _ (lift _) => apply (@keeps_lift _ R_refl)
  | |- keeps _ (bind _ _) => apply (@keeps_bind _ R_trans); [|intros ?]
  | |- keeps _ (try_except_Exception _ _) =>
      apply (@keeps_try _ R_trans); [|intros ?]
  | |- keeps _ (if ?b then _ else _) => destruct b
  | |- keeps _ (match ?o with Some _ => _ | None => _ end) => destruct o
  | |- keeps _ _ => prims
  end.

Ltac key_prims :=
  match goal with
  | |- keeps _ (show _) => apply same_key_show
  | |- keeps _ (external _) => apply same_key_external
  | |- keeps _ (modify (set_session (store_feedback _))) =>
      apply same_key_feedback
  | |- keeps _ (modify (set_session (store_resume_text _))) =>
      apply same_key_resume_text
  | |- keeps _ (modify (set_session (store_analysis_done _))) =>
      apply same_key_analysis_done
  | |- keeps _ (client_chat _ _ _) => apply same_key_client_chat
  | |- keeps _ (logger_warning _) => apply same_key_logger_warning
  | |- keeps _ (time_sleep _) => apply same_key_time_sleep
  end.

Ltac quiet_prims :=
  match goal with
  | |- keeps _ (show _) => apply quiet_show
  | |- keeps _ (external _) => apply quiet_external
  end.

(** The retriever changes neither what the session says of the key nor the
    client it holds. *)
Lemma same_key_retry_loop co attempts prompt :
  keeps (@same_key Ext Client) (retry_loop (chat_with Client_chat co) attempts prompt).
Proof.
  induction attempts as [|attempt rest IH]; cbn [retry_loop].
  - apply (@keeps_ret _ same_key_refl).
  - apply (@keeps_bind _ same_key_trans).
    + frame same_key_refl same_key_trans ltac:(idtac; key_prims).
    + intros [t|]; [apply (@keeps_ret _ same_key_refl)|exact IH].
Qed.

Lemma same_key_analyze co resume_text job_role job_description :
  keeps (@same_key Ext Client)
    (analyze_resume_with_llm (chat_with Client_chat co)
       resume_text job_role job_description).
Proof.
  unfold analyze_resume_with_llm.
  destruct (negb (truthy (strip resume_text)));
    [apply (@keeps_raise _ same_key_refl)|].
  destruct (negb (truthy (strip job_role)));
    [apply (@keeps_raise _ same_key_refl)|].
  apply (@keeps_bind _ same_key_trans); [apply same_key_retry_loop|].
  intros [t|]; [apply (@keeps_ret _ same_key_refl)|apply (@keeps_raise _ same_key_refl)].
Qed.

Lemma same_key_analyze_with co resume_text job_role job_description :
  keeps (@same_key Ext Client)
    (analyze_with Client_chat co resume_text job_role job_description).
Proof.
  destruct co as [c|]; [apply same_key_analyze|].
  intros w. unfold analyze_with.
  pose proof (@same_key_analyze None resume_text job_role job_description w)
    as H.
  destruct (analyze_resume_with_llm (chat_with Client_chat None)
              resume_text job_role job_description w) as [w' r].
  exact H.
Qed.

Lemma quiet_feedback_report (i : inputs) :
  keeps (@quiet Ext Client) (feedback_report export_feedback_as_pdf open_rb i).
Proof.
  unfold feedback_report.
  apply (@keeps_bind _ quiet_trans); [apply (@keeps_gets _ quiet_refl)|].
  intros feedback.
  frame quiet_refl quiet_trans ltac:(idtac; quiet_prims).
Qed.

Lemma same_key_analyze_clicked (i : inputs) (uploaded_file : upload) :
  keeps (@same_key Ext Client)
    (analyze_clicked Client_chat extract_text_from_pdf extract_text_from_docx
       str_lower re_word i uploaded_file).
Proof.
  unfold analyze_clicked, show_match_score.
  frame same_key_refl same_key_trans
    ltac:(first [ key_prims
                | match goal with
                  | |- keeps _ (analyze_with _ _ _ _ _) =>
                      apply same_key_analyze_with
                  end ]).
Qed.

Lemma same_key_main_page (i : inputs) :
  keeps (@same_key Ext Client)
    (main_page Client_chat extract_text_from_pdf extract_text_from_docx
       export_feedback_as_pdf open_rb str_lower re_word i).
Proof.
  unfold main_page.
  frame same_key_refl same_key_trans
    ltac:(first [ key_prims
                | match goal with
                  | |- keeps _ (analyze_clicked _ _ _ _ _ _ _) =>
                      apply same_key_analyze_clicked
                  | |- keeps _ (feedback_report _ _ _) =>
                      intros w; apply quiet_same_key;
                      apply quiet_feedback_report
                  end ]).
Qed.

(** [configure_api_key] keeps the session sound: it only says that the key
    is configured when it stores a client. *)
Lemma session_ok_configure (i : inputs) (w : world (app_state Ext Client)) :
  session_ok (session (client_state w)) ->
  session_ok
    (session (client_state (fst (configure_api_key cohere_Client Client_chat i w)))).
Proof.
  intros Hok. destruct w as [[x s sc] cs ws sl].
  cbv [configure_api_key bind ret show modify gets external
       try_except_Exception client_chat chat_with set_ext set_session
       client_state calls warnings sleeps ext session screen].
  destruct (truthy (in_api_key i)); [|exact Hok].
  destruct (cohere_Client x (in_api_key i)) as [x1 [e|co]].
  - destruct (is_Exception e); [|exact Hok].
    cbn. intros H. discriminate H.
  - destruct (Client_chat x1 co (lit "Hello") (lit "command-r-mini"))
      as [x2 [e|r]].
    + destruct (is_Exception e); [|exact Hok].
      cbn. intros H. discriminate H.
    + cbn. intros _. discriminate.
Qed.

Lemma quiet_main_page_idle (i : inputs) :
  in_analyze i = false ->
  keeps (@quiet Ext Client)
    (main_page Client_chat extract_text_from_pdf extract_text_from_docx
       export_feedback_as_pdf open_rb str_lower re_word i).
Proof.
  intros Hidle. unfold main_page. rewrite Hidle.
  frame quiet_refl quiet_trans
    ltac:(first [ quiet_prims
                | match goal with
                  | |- keeps _ (feedback_report _ _ _) =>
                      apply quiet_feedback_report
                  end ]).
Qed.

(** The run of [main] in three steps: the page configuration, the key, and
    then the request for a key or the page. *)
Lemma main_steps (i : inputs) (w : world (app_state Ext Client)) :
  exists w0 w1,
    quiet w w0
    /\ w1 = fst (configure_api_key cohere_Client Client_chat i w0)
    /\ (fst (main cohere_Client Client_chat extract_text_from_pdf
               extract_text_from_docx export_feedback_as_pdf open_rb
               str_lower re_word i w) = w1
        \/ quiet w1
             (fst (main cohere_Client Client_chat extract_text_from_pdf
                     extract_text_from_docx export_feedback_as_pdf open_rb
                     str_lower re_word i w))
        \/ fst (main cohere_Client Client_chat extract_text_from_pdf
                  extract_text_from_docx export_feedback_as_pdf open_rb
                  str_lower re_word i w)
           = fst (main_page Client_chat extract_text_from_pdf
                    extract_text_from_docx export_feedback_as_pdf open_rb
                    str_lower re_word i w1)).
Proof.
  assert (Hmain :
    main cohere_Client Client_chat extract_text_from_pdf
      extract_text_from_docx export_feedback_as_pdf open_rb
      str_lower re_word i w
    = match configure_api_key cohere_Client Client_chat i
              (fst (show (ui "st.set_page_config" (lit "Resume Sudharak")) w))
      with
      | (w1, inl e) => (w1, inl e)
      | (w1, inr _) =>
          (if negb (ss_api_key_configured (session (client_state w1)))
           then show (ui "st.warning"
                        (lit "Please enter your Cohere API key in the sidebar to get started."))
           else main_page Client_chat extract_text_from_pdf
                  extract_text_from_docx export_feedback_as_pdf open_rb
                  str_lower re_word i) w1
      end).
  { reflexivity. }
  rewrite Hmain. clear Hmain.
  exists (fst (show (ui "st.set_page_config" (lit "Resume Sudharak")) w)).
  eexists. split; [apply quiet_show|]. split; [reflexivity|].
  destruct (configure_api_key cohere_Client Client_chat i
              (fst (show (ui "st.set_page_config" (lit "Resume Sudharak")) w)))
    as [w1 [e|k]]; cbn [fst]; [left; reflexivity|].
  destruct (negb (ss_api_key_configured (session (client_state w1)))).
  - right. left. apply quiet_show.
  - right. right. reflexivity.
Qed.

End AppFrame.

(** X17. [configure_api_key] returns the key exactly when, in this run,
    the constructor has returned a client for it and the validation call on
    that client has returned a response: then the session is marked as
    configured and holds that client, the outside world is the one the
    call left, and one validation call was made. With an empty key field it
    returns [None], keeps the session and calls nothing. When it returns
    [None] for a key that is not empty, the session is marked as not
    configured and still holds the client it held before. *)
Theorem configure_api_key_result
    (Ext Client : Type)
    (cohere_Client : Ext -> str -> Ext * (exc + Client))
    (Client_chat : Ext -> Client -> str -> str -> Ext * (exc + response))
    (i : inputs) (w : world (app_state Ext Client)) :
  (in_api_key i = [] ->
   snd (configure_api_key cohere_Client Client_chat i w) = inr None
   /\ session (client_state (fst (configure_api_key cohere_Client Client_chat i w)))
      = session (client_state w)
   /\ calls (fst (configure_api_key cohere_Client Client_chat i w)) = calls w)
  /\ (forall k,
        snd (configure_api_key cohere_Client Client_chat i w) = inr (Some k) ->
        k = in_api_key i /\ k <> []
        /\ exists x1 co x2 r,
             cohere_Client (ext (client_state w)) k = (x1, inr co)
             /\ Client_chat x1 co (lit "Hello") (lit "command-r-mini")
                = (x2, inr r)
             /\ ext (client_state
                       (fst (configure_api_key cohere_Client Client_chat i w)))
                = x2
             /\ ss_api_key_configured
                  (session (client_state
                     (fst (configure_api_key cohere_Client Client_chat i w))))
                = true
             /\ ss_cohere_client
                  (session (client_state
                     (fst (configure_api_key cohere_Client Client_chat i w))))
                = Some co
             /\ calls (fst (configure_api_key cohere_Client Client_chat i w))
                = calls w ++ [validation_call])
  /\ (forall x1 co x2 r,
        in_api_key i <> [] ->
        cohere_Client (ext (client_state w)) (in_api_key i) = (x1, inr co) ->
        Client_chat x1 co (lit "Hello") (lit "command-r-mini") = (x2, inr r) ->
        snd (configure_api_key cohere_Client Client_chat i w)
        = inr (Some (in_api_key i)))
  /\ (snd (configure_api_key cohere_Client Client_chat i w) = inr None ->
      in_api_key i <> [] ->
      ss_api_key_configured
        (session (client_state
           (fst (configure_api_key cohere_Client Client_chat i w)))) = false
      /\ ss_cohere_client
           (session (client_state
              (fst (configure_api_key cohere_Client Client_chat i w))))
         = ss_cohere_client (session (client_state w))).
Proof.
  destruct w as [[x s sc] cs ws sl].
  cbv [configure_api_key bind ret show modify gets external
       try_except_Exception client_chat chat_with set_ext set_session
       client_state calls warnings sleeps ext session screen
       store_api_key_configured store_cohere_client].
  destruct (in_api_key i) as [|c key] eqn:Ek; cbn [truthy].
  - cbn. repeat split; try discriminate; try congruence.
  - destruct (cohere_Client x (c :: key)) as [x1 [e|co]] eqn:Eco.
    + destruct (is_Exception e); cbn;
        repeat split; try discriminate; try congruence.
    + destruct (Client_chat x1 co (lit "Hello") (lit "command-r-mini"))
        as [x2 [e|r]] eqn:Ech.
      * destruct (is_Exception e); cbn;
          (split; [discriminate|]);
          (split; [intros k; discriminate|]);
          (split; [intros y1 co' y2 r' _ [= <- <-]; congruence|]);
          try (intros; split; reflexivity); try discriminate.
      * cbn. split; [discriminate|].
        split.
        { intros k [= <-]. split; [reflexivity|]. split; [discriminate|].
          exists x1, co, x2, r. repeat split; assumption || reflexivity. }
        split; [reflexivity|discriminate].
Qed.

Lemma configure_api_key_result_witness :
  snd (configure_api_key demo_Client demo_chat
         (demo_inputs "prod_ok" "Engineer" "" "Python developer" false)
         (world_of 0 (new_session str) [] [] [] []))
  = inr (Some (lit "prod_ok"))
  /\ snd (configure_api_key demo_Client demo_chat
            (demo_inputs "stale_key" "Engineer" "" "Python developer" false)
            (world_of 0 (new_session str) [] [] [] []))
     <> inr (Some (lit "stale_key")).
Proof.
  split.
  - destruct (configure_api_key_result demo_Client demo_chat
                (demo_inputs "prod_ok" "Engineer" "" "Python developer" false)
                (world_of 0 (new_session str) [] [] [] []))
      as (_ & _ & Haccepted & _).
    apply (Haccepted 0 (lit "prod_ok") 1
             {| text := lit "1. Missing Skills: Docker" |}).
    + vm_compute. discriminate.
    + reflexivity.
    + reflexivity.
  - destruct (configure_api_key_result demo_Client demo_chat
                (demo_inputs "stale_key" "Engineer" "" "Python developer" false)
                (world_of 0 (new_session str) [] [] [] []))
      as (_ & Hreturned & _).
    intros H. destruct (Hreturned _ H) as (_ & _ & x1 & co & x2 & r & Hco & Hch & _).
    vm_compute in Hco. injection Hco as <- <-.
    vm_compute in Hch. discriminate Hch.
Defined.

(** X18. Whenever the session says that the key is configured it holds a
    client: a run of [main] that starts in such a session ends in such a
    session, whatever the service, the extractors and the exporter do. *)
Theorem main_keeps_session_ok
    (Ext Client : Type)
    (cohere_Client : Ext -> str -> Ext * (exc + Client))
    (Client_chat : Ext -> Client -> str -> str -> Ext * (exc + response))
    (extract_text_from_pdf extract_text_from_docx
       : Ext -> upload -> Ext * (exc + str))
    (export_feedback_as_pdf : Ext -> str -> Ext * (exc + str))
    (open_rb : Ext -> str -> Ext * (exc + list N))
    (str_lower : str -> str) (re_word : char -> bool)
    (i : inputs) (w : world (app_state Ext Client)) :
  session_ok (session (client_state w)) ->
  session_ok
    (session (client_state
       (fst (main cohere_Client Client_chat extract_text_from_pdf
               extract_text_from_docx export_feedback_as_pdf open_rb
               str_lower re_word i w)))).
Proof.
  intros Hok.
  destruct (main_steps cohere_Client Client_chat extract_text_from_pdf
              extract_text_from_docx export_feedback_as_pdf open_rb
              str_lower re_word i w)
    as (w0 & w1 & Hq0 & Hw1 & Hend).
  assert (Hok1 : session_ok (session (client_state w1))).
  { subst w1. apply session_ok_configure.
    destruct Hq0 as (Hs & _). rewrite Hs. exact Hok. }
  destruct Hend as [->|[Hq| ->]].
  - exact Hok1.
  - destruct Hq as (Hs & _). rewrite Hs. exact Hok1.
  - destruct (same_key_main_page Client_chat extract_text_from_pdf
                extract_text_from_docx export_feedback_as_pdf open_rb
                str_lower re_word i w1) as [Hc Hcl].
    unfold session_ok in *. rewrite Hc, Hcl. exact Hok1.
Qed.

Lemma main_keeps_session_ok_witness :
  session_ok
    (session (client_state
       (fst (main demo_Client demo_chat demo_extract demo_extract demo_export
               demo_open lower_ascii word_ascii
               (demo_inputs "prod_ok" "Engineer" "" "Python developer" true)
               (world_of 0 (new_session str) [] [] [] []))))).
Proof.
  apply main_keeps_session_ok. intros H. discriminate H.
Defined.

(** X19. A run in which the Analyze button is not pressed leaves the
    analysis alone, whatever else is on the page: the feedback, the resume
    text and the flag of the session are as they were, nothing is logged,
    nothing sleeps, and the service receives at most the validation call of
    the key. *)
Theorem main_idle_run
    (Ext Client : Type)
    (cohere_Client : Ext -> str -> Ext * (exc + Client))
    (Client_chat : Ext -> Client -> str -> str -> Ext * (exc + response))
    (extract_text_from_pdf extract_text_from_docx
       : Ext -> upload -> Ext * (exc + str))
    (export_feedback_as_pdf : Ext -> str -> Ext * (exc + str))
    (open_rb : Ext -> str -> Ext * (exc + list N))
    (str_lower : str -> str) (re_word : char -> bool)
    (i : inputs) (w : world (app_state Ext Client)) :
  in_analyze i = false ->
  analysis_untouched w
    (fst (main cohere_Client Client_chat extract_text_from_pdf
            extract_text_from_docx export_feedback_as_pdf open_rb
            str_lower re_word i w)).
Proof.
  intros Hidle.
  destruct (main_steps cohere_Client Client_chat extract_text_from_pdf
              extract_text_from_docx export_feedback_as_pdf open_rb
              str_lower re_word i w)
    as (w0 & w1 & Hq0 & Hw1 & Hend).
  assert (H1 : analysis_untouched w w1).
  { subst w1. destruct Hq0 as (Hs & Hc & Hw & Hsl).
    destruct w0 as [[x s sc] cs ws sl]. cbn in Hs, Hc, Hw, Hsl. subst.
    unfold analysis_untouched.
    cbv [configure_api_key bind ret show modify gets external
         try_except_Exception client_chat chat_with set_ext set_session
         client_state calls warnings sleeps ext session screen
         store_api_key_configured store_cohere_client].
    destruct (truthy (in_api_key i)); [|cbn; tauto].
    destruct (cohere_Client x (in_api_key i)) as [x1 [e|co]].
    - destruct (is_Exception e); cbn; tauto.
    - destruct (Client_chat x1 co (lit "Hello") (lit "command-r-mini"))
        as [x2 [e|r]]; [destruct (is_Exception e)|]; cbn; tauto. }
  assert (Hq : forall w2, quiet w1 w2 -> analysis_untouched w w2).
  { intros w2 (Hs & Hc & Hw & Hsl).
    unfold analysis_untouched in *. rewrite Hs, Hc, Hw, Hsl. exact H1. }
  destruct Hend as [->|[Hq1| ->]].
  - exact H1.
  - exact (Hq _ Hq1).
  - apply Hq. apply quiet_main_page_idle. exact Hidle.
Qed.

Lemma main_idle_run_witness :
  analysis_untouched
    (world_of 0 (new_session str) [] [] [] [])
    (fst (main demo_Client demo_chat demo_extract demo_extract demo_export
            demo_open lower_ascii word_ascii
            (demo_inputs "prod_ok" "Engineer" "" "Python developer" false)
            (world_of 0 (new_session str) [] [] [] []))).
Proof.
  apply main_idle_run. reflexivity.
Defined.

(** X20. With nothing in the key field, [main] neither validates nor
    forgets a key: what the session says of the key and the client it holds
    are the same after the run, so a session configured by an earlier run
    goes on to the page with the client of that run. *)
Theorem main_empty_key_field
    (Ext Client : Type)
    (cohere_Client : Ext -> str -> Ext * (exc + Client))
    (Client_chat : Ext -> Client -> str -> str -> Ext * (exc + response))
    (extract_text_from_pdf extract_text_from_docx
       : Ext -> upload -> Ext * (exc + str))
    (export_feedback_as_pdf : Ext -> str -> Ext * (exc + str))
    (open_rb : Ext -> str -> Ext * (exc + list N))
    (str_lower : str -> str) (re_word : char -> bool)
    (i : inputs) (w : world (app_state Ext Client)) :
  in_api_key i = [] ->
  same_key w
    (fst (main cohere_Client Client_chat extract_text_from_pdf
            extract_text_from_docx export_feedback_as_pdf open_rb
            str_lower re_word i w))
  /\ (ss_api_key_configured (session (client_state w)) = true ->
      fst (main cohere_Client Client_chat extract_text_from_pdf
             extract_text_from_docx export_feedback_as_pdf open_rb
             str_lower re_word i w)
      = fst (main_page Client_chat extract_text_from_pdf
               extract_text_from_docx export_feedback_as_pdf open_rb
               str_lower re_word i
               (world_of (ext (client_state w)) (session (client_state w))
                  (screen (client_state w)
                   ++ [ui "st.set_page_config" (lit "Resume Sudharak")]
                   ++ key_widgets)
                  (calls w) (warnings w) (sleeps w)))).
Proof.
  intros Hk. destruct w as [[x s sc] cs ws sl].
  change {| client_state := {| ext := x; session := s; screen := sc |};
            calls := cs; warnings := ws; sleeps := sl |}
    with (world_of x s sc cs ws sl).
  assert (Hmain :
    main cohere_Client Client_chat extract_text_from_pdf
      extract_text_from_docx export_feedback_as_pdf open_rb
      str_lower re_word i (world_of x s sc cs ws sl)
    = (if negb (ss_api_key_configured s)
       then show (ui "st.warning"
                    (lit "Please enter your Cohere API key in the sidebar to get started."))
       else main_page Client_chat extract_text_from_pdf
              extract_text_from_docx export_feedback_as_pdf open_rb
              str_lower re_word i)
        (world_of x s
           (sc ++ [ui "st.set_page_config" (lit "Resume Sudharak")]
               ++ key_widgets)
           cs ws sl)).
  { unfold main. unfold bind at 1. unfold show at 1, modify at 1.
    cbn [client_state world_of calls warnings sleeps ext session screen].
    unfold bind at 1.
    change {| client_state :=
                {| ext := x; session := s;
                   screen := sc ++ [ui "st.set_page_config"
                                      (lit "Resume Sudharak")] |};
              calls := cs; warnings := ws; sleeps := sl |}
      with (world_of x s
              (sc ++ [ui "st.set_page_config" (lit "Resume Sudharak")])
              cs ws sl).
    rewrite (@configure_empty Ext Client cohere_Client Client_chat
               i x s _ cs ws sl Hk).
    unfold bind at 1, gets at 1.
    cbn [client_state world_of session]. rewrite <- app_assoc. reflexivity. }
  rewrite Hmain. cbn [client_state world_of ext session screen calls
                      warnings sleeps].
  split.
  - destruct (negb (ss_api_key_configured s)).
    + split; reflexivity.
    + pose proof (same_key_main_page Client_chat extract_text_from_pdf
                    extract_text_from_docx export_feedback_as_pdf open_rb
                    str_lower re_word i
                    (world_of x s
                       (sc ++ [ui "st.set_page_config" (lit "Resume Sudharak")]
                           ++ key_widgets) cs ws sl)) as H.
      exact H.
  - intros Hs. rewrite Hs. reflexivity.
Qed.

Lemma main_empty_key_field_witness :
  same_key
    (world_of 0 (new_session str) [] [] [] [])
    (fst (main demo_Client demo_chat demo_extract demo_extract demo_export
            demo_open lower_ascii word_ascii
            (demo_inputs "" "Engineer" "" "Python developer" true)
            (world_of 0 (new_session str) [] [] [] []))).
Proof.
  apply (@main_empty_key_field nat str demo_Client demo_chat demo_extract
           demo_extract demo_export demo_open lower_ascii word_ascii
           (demo_inputs "" "Engineer" "" "Python developer" true)
           (world_of 0 (new_session str) [] [] [] [])).
  reflexivity.
Defined.

Lemma main_blank_resume_witness :
  exists w',
    main demo_Client demo_chat demo_extract demo_extract demo_export demo_open
      lower_ascii word_ascii
      (demo_inputs "prod_ok" "Engineer" "" "   " true)
      (world_of 0 (new_session str) [] [] [] [])
    = (w', inr tt).
Proof.
  eexists.
  eapply (@main_blank_resume nat str demo_Client demo_chat demo_extract
            demo_extract demo_export demo_open lower_ascii word_ascii
            (demo_inputs "prod_ok" "Engineer" "" "   " true)
            0 (new_session str) [] [] [] []).
  - vm_compute. discriminate.
  - reflexivity.
  - reflexivity.
  - reflexivity.
  - vm_compute. discriminate.
  - reflexivity.
  - reflexivity.
  - vm_compute. reflexivity.
Defined.

Lemma main_blank_job_role_witness :
  exists w',
    main demo_Client demo_chat demo_extract demo_extract demo_export demo_open
      lower_ascii word_ascii
      (demo_inputs "prod_ok" "  " "" "Python developer" true)
      (world_of 0 (new_session str) [] [] [] [])
    = (w', inr tt).
Proof.
  eexists.
  eapply (@main_blank_job_role nat str demo_Client demo_chat demo_extract
            demo_extract demo_export demo_open lower_ascii word_ascii
            (demo_inputs "prod_ok" "  " "" "Python developer" true)
            0 (new_session str) [] [] [] []).
  - vm_compute. discriminate.
  - reflexivity.
  - reflexivity.
  - reflexivity.
  - vm_compute. discriminate.
  - reflexivity.
  - reflexivity.
  - vm_compute. discriminate.
  - vm_compute. reflexivity.
Defined.

Lemma main_retries_exhausted_witness :
  exists w',
    main demo_Client busy_chat demo_extract demo_extract demo_export demo_open
      lower_ascii word_ascii
      (demo_inputs "prod_ok" "Engineer" "" "Python developer" true)
      (world_of 0 (new_session str) [] [] [] [])
    = (w', inr tt)
    /\ sleeps w' = [10; 10; 10]%Z.
Proof.
  eexists. split.
  - eapply (@main_retries_exhausted nat str demo_Client busy_chat demo_extract
              demo_extract demo_export demo_open lower_ascii word_ascii
              (demo_inputs "prod_ok" "Engineer" "" "Python developer" true)
              0 (new_session str) [] [] [] []).
    + vm_compute. discriminate.
    + reflexivity.
    + reflexivity.
    + reflexivity.
    + vm_compute. discriminate.
    + reflexivity.
    + reflexivity.
    + vm_compute. discriminate.
    + vm_compute. discriminate.
    + reflexivity.
    + reflexivity.
    + reflexivity.
    + reflexivity.
    + reflexivity.
    + reflexivity.
  - reflexivity.
Defined.


Lemma main_empty_answer_witness :
  exists w',
    main demo_Client mute_chat demo_extract demo_extract demo_export demo_open
      lower_ascii word_ascii
      (demo_inputs "prod_ok" "Engineer" "" "Python developer" true)
      (world_of 0 (new_session str) [] [] [] [])
    = (w', inr tt)
    /\ ss_feedback (session (client_state w')) = Some [].
Proof.
  eexists. split.
  - eapply (@main_empty_answer nat str demo_Client mute_chat
              demo_extract demo_extract demo_export demo_open
              lower_ascii word_ascii
              (demo_inputs "prod_ok" "Engineer" "" "Python developer" true)
              0 (new_session str) [] [] [] []).
    + vm_compute. discriminate.
    + reflexivity.
    + reflexivity.
    + reflexivity.
    + vm_compute. discriminate.
    + reflexivity.
    + reflexivity.
    + vm_compute. discriminate.
    + vm_compute. discriminate.
    + reflexivity.
    + reflexivity.
    + reflexivity.
  - reflexivity.
Defined.

Lemma main_raises_on_empty_vocabulary_witness :
  exists w',
    main demo_Client demo_chat demo_extract demo_extract demo_export demo_open
      lower_ascii word_ascii
      (demo_inputs "prod_ok" "Engineer" "?" "C" true)
      (world_of 0 (new_session str) [] [] [] [])
    = (w', inl empty_vocabulary)
    /\ ss_analysis_done (session (client_state w')) = true.
Proof.
  eexists. split.
  - eapply (@main_raises_on_empty_vocabulary nat str demo_Client demo_chat
              demo_extract demo_extract demo_export demo_open
              lower_ascii word_ascii
              (demo_inputs "prod_ok" "Engineer" "?" "C" true)
              0 (new_session str) [] [] [] []).
    + vm_compute. discriminate.
    + reflexivity.
    + reflexivity.
    + reflexivity.
    + vm_compute. discriminate.
    + reflexivity.
    + reflexivity.
    + vm_compute. discriminate.
    + vm_compute. discriminate.
    + reflexivity.
    + vm_compute. discriminate.
    + vm_compute. reflexivity.
    + vm_compute. reflexivity.
  - reflexivity.
Defined.

Lemma main_feedback_and_score_witness :
  exists w',
    main demo_Client demo_chat demo_extract demo_extract demo_export demo_open
      lower_ascii word_ascii
      (demo_inputs "prod_ok" "Engineer" "Python SQL required"
         "Python Java SQL" true)
      (world_of 0 (new_session str) [] [] [] [])
    = (w', inr tt)
    /\ In {| ui_fn := lit "st.metric";
             ui_args := [Text (lit "Match Score");
                         Number (f64_div (f64_of_Z 6667) (f64_of_Z 100));
                         Text (lit "%")] |}
         (screen (client_state w')).
Proof.
  eexists. split.
  - eapply (@main_feedback_and_score nat str demo_Client demo_chat
              demo_extract demo_extract demo_export demo_open
              lower_ascii word_ascii
              (demo_inputs "prod_ok" "Engineer" "Python SQL required"
                 "Python Java SQL" true)
              0 (new_session str) [] [] [] []).
    + vm_compute. discriminate.
    + reflexivity.
    + reflexivity.
    + reflexivity.
    + vm_compute. discriminate.
    + reflexivity.
    + reflexivity.
    + vm_compute. discriminate.
    + vm_compute. discriminate.
    + reflexivity.
    + vm_compute. discriminate.
    + vm_compute. reflexivity.
    + vm_compute. discriminate.
    + reflexivity.
  - vm_compute. tauto.
Defined.

